(** * GridFsStorage: a shallow embedding of the multer storage engine

    The engine class (GridFsStorage, exported from the package's src/
    directory and driven by test/connection-ready.spec.ts,
    test/file-removal.spec.ts and the error-handling tests) is modelled
    here as an explicit state machine: one record per instance, one
    [step] per thing that can happen to it (a [ready()] call, the
    connection promise settling, an upload arriving, a stream event, a
    native database error), and an observation log in which every
    published event, resolved [ready()] promise, callback invocation and
    external-store call is appended in order. *)

From Stdlib Require Import String ZArith List.
From stdpp Require Import base gmap list strings.
Import ListNotations.

Local Open Scope string_scope.
Local Open Scope list_scope.

(* ------------------------------------------------------------------ *)
(** ** Opaque references of the driver and of JavaScript *)

(** An Error object.  Two Error objects are the same object exactly when
    these records are equal: [err_origin] tells who allocated it. *)
Inductive err_origin :=
| ErrExternal (n : nat)     (* allocated by the driver, the user or a test *)
| ErrUpload (uid : nat)     (* allocated by the engine while handling upload [uid] *)
| ErrConstruct.             (* allocated by the constructor *)

Record error := mkError { err_origin_of : err_origin; err_message : string }.

Definition client_ref := nat.

(** A database handle: either given by the user, or [client.db(name)]
    of a MongoClient. *)
Inductive db_ref :=
| DbRef (n : nat)
| ClientDb (c : client_ref).

(** What a connection promise (or [MongoClient.connect]) resolves to. *)
Inductive conn_value :=
| CvDb (d : db_ref)
| CvClient (c : client_ref).

Inductive settle_result :=
| Resolved (v : conn_value)
| Rejected (e : error).

(** The [db] option: an open handle / client, or a promise of one whose
    settlement is supplied by the environment. *)
Inductive db_option :=
| DbGiven (v : conn_value)
| DbPromised.

(* ------------------------------------------------------------------ *)
(** ** File settings and the [file] policy *)

(** GridFS identifiers as the driver accepts them. *)
Inductive id_value :=
| IdObjectId (hex : string)
| IdString (s : string)
| IdUndefined.

(** The object a policy may return: every field optional. *)
Record file_config := mkFileConfig {
  fc_filename : option string;
  fc_bucketName : option string;
  fc_chunkSize : option Z;
  fc_contentType : option string;
  fc_metadata : option (list (string * string));
  fc_id : option id_value;
  fc_disabled : bool
}.

Definition empty_config : file_config :=
  mkFileConfig None None None None None None false.

(** The JavaScript values a policy may produce. *)
Inductive js_value :=
| VUndefined
| VNull
| VBool (b : bool)
| VNumber (z : Z)
| VString (s : string)
| VObject (o : file_config).

(** [typeof v]. *)
Definition js_typeof (v : js_value) : string :=
  match v with
  | VUndefined => "undefined"
  | VNull => "object"
  | VBool _ => "boolean"
  | VNumber _ => "number"
  | VString _ => "string"
  | VObject _ => "object"
  end.

(** The per-file data multer hands to the engine. *)
Record upload_ctx := mkCtx {
  ctx_uid : nat;               (* correlation token of the upload *)
  ctx_originalname : string;
  ctx_mimetype : string;
  ctx_random : string          (* hex of the random bytes drawn for the default name *)
}.

(** The canonical settings of one upload. *)
Record file_settings := mkSettings {
  fs_filename : string;
  fs_bucketName : string;
  fs_chunkSize : Z;
  fs_contentType : string;
  fs_metadata : option (list (string * string));
  fs_id : option id_value;
  fs_disabled : bool
}.

(** Result of a function call: a value, or a thrown (or rejected) error. *)
Inductive completion :=
| Returned (v : js_value)
| Threw (e : error).

(** A generator object driven to completion: it returns, throws, or
    yields a promise and is resumed with its value (or has its rejection
    thrown in at that resumption point). *)
Inductive gen :=
| GReturn (v : js_value)
| GThrow (e : error)
| GYield (c : completion) (kok : js_value -> gen) (kerr : error -> gen).

(** The [file] option: a constant, a plain function, an async function
    (its completion is how the returned promise settles) or a generator
    function. *)
Inductive policy :=
| PConst (v : js_value)
| PSync (f : upload_ctx -> completion)
| PAsync (f : upload_ctx -> completion)
| PGen (f : upload_ctx -> gen).

Record options := mkOptions {
  url : option string;
  db_opt : option db_option;
  client_opt : option client_ref;
  file : option policy
}.

Inductive res (A : Type) :=
| Ok (a : A)
| Err (e : error).
Arguments Ok {A} a.
Arguments Err {A} e.

(* ------------------------------------------------------------------ *)
(** ** Configuration resolver *)

(** Modelled from the spec: the engine's policy evaluation (its
    generator driver and [_generate] / file-settings code are not in the
    sources).  A generator is driven until it returns or throws; a
    rejected yielded promise is thrown in at its resumption point. *)
Fixpoint drive (g : gen) : completion :=
  match g with
  | GReturn v => Returned v
  | GThrow e => Threw e
  | GYield (Returned v) kok _ => drive (kok v)
  | GYield (Threw e) _ kerr => drive (kerr e)
  end.

(** Modelled from the spec: invoking the policy for one upload.  A
    synchronous throw is captured (the call is wrapped in a promise), so
    it settles exactly like an async rejection. *)
Definition invoke_policy (p : option policy) (ctx : upload_ctx) : completion :=
  match p with
  | None => Returned VUndefined
  | Some (PConst v) => Returned v
  | Some (PSync f) => f ctx
  | Some (PAsync f) => f ctx
  | Some (PGen f) => drive (f ctx)
  end.

(** The default chunk size of GridFS (255 KiB). *)
Definition default_chunkSize : Z := 261120.

Definition default_bucketName : string := "fs".

Definition apply_defaults (ctx : upload_ctx) (o : file_config) : file_settings :=
  mkSettings
    (default (ctx_random ctx) (fc_filename o))
    (default default_bucketName (fc_bucketName o))
    (default default_chunkSize (fc_chunkSize o))
    (default (ctx_mimetype ctx) (fc_contentType o))
    (fc_metadata o)
    (fc_id o)
    (fc_disabled o).

(** The configuration error raised for a settings value of the wrong type. *)
Definition settings_type_error (uid : nat) (v : js_value) : error :=
  mkError (ErrUpload uid)
    (String.append "Invalid type for file settings, got " (js_typeof v)).

(** Modelled from the spec: resolving and validating the settings. *)
Definition resolve_file_settings (p : option policy) (ctx : upload_ctx)
  : res file_settings :=
  match invoke_policy p ctx with
  | Threw e => Err e
  | Returned v =>
      match v with
      | VUndefined | VNull => Ok (apply_defaults ctx empty_config)
      | VObject o => Ok (apply_defaults ctx o)
      | _ => Err (settings_type_error (ctx_uid ctx) v)
      end
  end.

(* ------------------------------------------------------------------ *)
(** ** Instance state *)

Inductive outcome :=
| Connected (d : db_ref) (c : option client_ref)
| ConnFailed (e : error).

Inductive gate_state :=
| NotStarted
| Pending
| Settled (o : outcome).

(** Why an upload failed: an error, or the policy's skip signal. *)
Inductive failure :=
| FError (e : error)
| FSkip.

Record file_record := mkRecord {
  fr_id : id_value;
  fr_filename : string;
  fr_bucketName : string;
  fr_contentType : string;
  fr_chunkSize : Z;
  fr_metadata : option (list (string * string));
  fr_size : Z;
  fr_md5 : string
}.

(** The two arguments of an error-first callback; [None] is null/undefined. *)
Record cb_args := mkCb { cb_err : option failure; cb_result : option file_record }.

Definition cb_failed (f : failure) : cb_args := mkCb (Some f) None.
Definition cb_succeeded (r : file_record) : cb_args := mkCb None (Some r).

Inductive phase :=
| AwaitingReadiness
| Streaming (st : file_settings)
| Completed (r : file_record)
| Failed (f : failure).

Record upload := mkUpload { u_ctx : upload_ctx; u_phase : phase }.

(** What the streams of one upload may report. *)
Inductive stream_event :=
| SrcError (e : error)                                    (* source stream 'error' *)
| DestError (e : error)                                   (* GridFS write stream 'error' *)
| DestFinish (id : id_value) (length : Z) (md5 : string). (* write stream 'finish' *)

Inductive store_call :=
| OpenUploadStream (d : db_ref) (bucket filename : string) (chunk : Z) (ctype : string)
| AbortUploadStream (uid : nat)
| DeleteById (d : db_ref) (bucket : string) (id : id_value).

Inductive event :=
| EvConnection (d : db_ref) (c : option client_ref)
| EvConnectionFailed (e : error)
| EvDbError (e : error)
| EvStreamError (uid : nat) (e : error)
| EvFile (uid : nat) (r : file_record).

Inductive obs :=
| OEvent (ev : event)                    (* this.emit(...) *)
| OReady (caller : nat) (o : outcome)    (* a ready() promise settles *)
| OCallback (uid : nat) (a : cb_args)    (* the upload's multer callback *)
| ORemoved (a : cb_args)                 (* the removal callback *)
| OStore (c : store_call).               (* a call into the GridFS driver *)

Record storage := mkStorage {
  configuration : options;
  gate : gate_state;
  attempts : nat;                  (* connection attempts started *)
  ready_waiters : list nat;        (* ready() callers awaiting the gate *)
  upload_waiters : list nat;       (* uploads awaiting the gate *)
  db : option db_ref;
  client : option client_ref;
  uploads : gmap nat upload;
  log : list obs
}.

(* ------------------------------------------------------------------ *)
(** ** Connection normalizer and readiness gate *)

Definition construct_error : error :=
  mkError ErrConstruct
    "Error creating storage engine. At least one of url or db option must be provided.".

(** Modelled from the spec: the connection normalizer.  [r] is how the
    awaited promise settled: [MongoClient.connect(url, options)] for the
    url form, the user's promise for the promise form.  An open handle or
    client given directly does not consult it. *)
Definition normalize (o : options) (r : settle_result) : outcome :=
  let of_value (v : conn_value) :=
    match v with
    | CvDb d => Connected d (client_opt o)
    | CvClient c => Connected (ClientDb c) (Some c)
    end in
  match url o, db_opt o with
  | Some _, _ =>
      match r with
      | Resolved (CvClient c) => Connected (ClientDb c) (Some c)
      | Resolved (CvDb d) => Connected d None
      | Rejected e => ConnFailed e
      end
  | None, Some (DbGiven v) => of_value v
  | None, Some DbPromised =>
      match r with
      | Resolved v => of_value v
      | Rejected e => ConnFailed e
      end
  | None, None => ConnFailed construct_error
  end.

(** Modelled from the spec: start the single connection attempt, unless
    it has been started already (the cached connection promise). *)
Definition ensure_connecting (s : storage) : storage :=
  match gate s with
  | NotStarted =>
      mkStorage (configuration s) Pending (S (attempts s)) (ready_waiters s)
        (upload_waiters s) (db s) (client s) (uploads s) (log s)
  | _ => s
  end.

(** Modelled from the spec: the constructor.  The missing-connection check
    throws synchronously; otherwise the instance starts connecting at once
    (the tests observe 'connection' / 'connectionFailed' without any
    ready() call). *)
Definition construct (o : options) : res storage :=
  match url o, db_opt o with
  | None, None => Err construct_error
  | _, _ =>
      Ok (ensure_connecting
            (mkStorage o NotStarted 0 [] [] None None ∅ []))
  end.

(** Modelled from the spec: [ready()] called by [caller]. *)
Definition call_ready (caller : nat) (s0 : storage) : storage :=
  let s := ensure_connecting s0 in
  match gate s with
  | Settled o =>
      mkStorage (configuration s) (gate s) (attempts s) (ready_waiters s)
        (upload_waiters s) (db s) (client s) (uploads s)
        (log s ++ [OReady caller o])
  | _ =>
      mkStorage (configuration s) (gate s) (attempts s)
        (ready_waiters s ++ [caller])
        (upload_waiters s) (db s) (client s) (uploads s) (log s)
  end.

(* ------------------------------------------------------------------ *)
(** ** Upload orchestrator *)

(** Modelled from the spec: the Configuring state, once the store is
    ready: resolve the settings, then open the write stream. *)
Definition configure (o : options) (d : db_ref) (uid : nat) (ctx : upload_ctx)
  : phase * list obs :=
  match resolve_file_settings (file o) ctx with
  | Err e => (Failed (FError e), [OCallback uid (cb_failed (FError e))])
  | Ok st =>
      if fs_disabled st
      then (Failed FSkip, [OCallback uid (cb_failed FSkip)])
      else (Streaming st,
            [OStore (OpenUploadStream d (fs_bucketName st) (fs_filename st)
                       (fs_chunkSize st) (fs_contentType st))])
  end.

(** Modelled from the spec: leaving AwaitingReadiness with the gate's outcome. *)
Definition after_ready (o : options) (g : outcome) (uid : nat) (ctx : upload_ctx)
  : phase * list obs :=
  match g with
  | ConnFailed e => (Failed (FError e), [OCallback uid (cb_failed (FError e))])
  | Connected d _ => configure o d uid ctx
  end.

(** Modelled from the spec: [_handleFile] for a new upload. *)
Definition start_upload (ctx : upload_ctx) (s0 : storage) : storage :=
  let uid := ctx_uid ctx in
  match uploads s0 !! uid with
  | Some _ => s0
  | None =>
      let s := ensure_connecting s0 in
      match gate s with
      | Settled g =>
          let '(ph, l) := after_ready (configuration s) g uid ctx in
          mkStorage (configuration s) (gate s) (attempts s) (ready_waiters s)
            (upload_waiters s) (db s) (client s)
            (<[uid := mkUpload ctx ph]> (uploads s)) (log s ++ l)
      | _ =>
          mkStorage (configuration s) (gate s) (attempts s) (ready_waiters s)
            (upload_waiters s ++ [uid]) (db s) (client s)
            (<[uid := mkUpload ctx AwaitingReadiness]> (uploads s)) (log s)
      end
  end.

(** Wake one upload that was awaiting the gate. *)
Definition wake_upload (o : options) (g : outcome)
    (acc : gmap nat upload * list obs) (uid : nat) : gmap nat upload * list obs :=
  let '(ups, l) := acc in
  match ups !! uid with
  | Some (mkUpload ctx AwaitingReadiness) =>
      let '(ph, l') := after_ready o g uid ctx in
      (<[uid := mkUpload ctx ph]> ups, l ++ l')
  | _ => (ups, l)
  end.

Definition outcome_event (g : outcome) : event :=
  match g with
  | Connected d c => EvConnection d c
  | ConnFailed e => EvConnectionFailed e
  end.

Definition outcome_db (g : outcome) : option db_ref :=
  match g with Connected d _ => Some d | ConnFailed _ => None end.

Definition outcome_client (g : outcome) : option client_ref :=
  match g with Connected _ c => c | ConnFailed _ => None end.

(** Modelled from the spec: the connection attempt settles.  The gate
    records the outcome once, publishes it, settles every waiting
    ready() promise with it and lets every waiting upload go on. *)
Definition settle (r : settle_result) (s : storage) : storage :=
  match gate s with
  | Pending =>
      let g := normalize (configuration s) r in
      let '(ups, l) :=
        fold_left (wake_upload (configuration s) g) (upload_waiters s)
          (uploads s,
           log s ++ [OEvent (outcome_event g)]
                 ++ map (fun w => OReady w g) (ready_waiters s)) in
      mkStorage (configuration s) (Settled g) (attempts s) [] []
        (outcome_db g) (outcome_client g) ups l
  | _ => s
  end.

(** Modelled from the spec: the two streams of upload [uid] report.  The
    first error or the completion ends the upload; anything later is
    ignored. *)
Definition stream_step (uid : nat) (ev : stream_event) (s : storage) : storage :=
  let upd ph l :=
    match uploads s !! uid with
    | Some u =>
        mkStorage (configuration s) (gate s) (attempts s) (ready_waiters s)
          (upload_waiters s) (db s) (client s)
          (<[uid := mkUpload (u_ctx u) ph]> (uploads s)) (log s ++ l)
    | None => s
    end in
  match uploads s !! uid with
  | Some (mkUpload ctx (Streaming st)) =>
      match ev with
      | SrcError e =>
          upd (Failed (FError e))
            [OStore (AbortUploadStream uid); OEvent (EvStreamError uid e);
             OCallback uid (cb_failed (FError e))]
      | DestError e =>
          upd (Failed (FError e))
            [OEvent (EvStreamError uid e); OCallback uid (cb_failed (FError e))]
      | DestFinish id len md5 =>
          let r := mkRecord id (fs_filename st) (fs_bucketName st)
                     (fs_contentType st) (fs_chunkSize st) (fs_metadata st)
                     len md5 in
          upd (Completed r) [OEvent (EvFile uid r); OCallback uid (cb_succeeded r)]
      end
  | _ => s
  end.

(** Modelled from the spec: the native error listener on the resolved
    client / database republishes as 'dbError'. *)
Definition db_error (e : error) (s : storage) : storage :=
  match gate s with
  | Settled (Connected _ _) =>
      mkStorage (configuration s) (gate s) (attempts s) (ready_waiters s)
        (upload_waiters s) (db s) (client s) (uploads s)
        (log s ++ [OEvent (EvDbError e)])
  | _ => s
  end.

Inductive input :=
| ICallReady (caller : nat)
| IConnSettled (r : settle_result)
| IUpload (ctx : upload_ctx)
| IStream (uid : nat) (ev : stream_event)
| INativeError (e : error).

Definition step (s : storage) (i : input) : storage :=
  match i with
  | ICallReady c => call_ready c s
  | IConnSettled r => settle r s
  | IUpload ctx => start_upload ctx s
  | IStream uid ev => stream_step uid ev s
  | INativeError e => db_error e s
  end.

Definition run (s : storage) (tr : list input) : storage := fold_left step tr s.

(** The states an instance built from [o] can reach. *)
Definition reachable (o : options) (s : storage) : Prop :=
  exists s0 tr, construct o = Ok s0 /\ s = run s0 tr.

(* ------------------------------------------------------------------ *)
(** ** Removal operator *)

(** The two fields of a file record [_removeFile] reads. *)
Record file_ref := mkFileRef { rf_id : id_value; rf_bucketName : string }.

Inductive delete_result :=
| Deleted
| DeleteFailed (e : error).

(** Modelled from the spec: [_removeFile(req, file, cb)] on the resolved
    database handle [d]; [respond] is how the driver's delete settles. *)
Definition _removeFile (d : db_ref) (f : file_ref)
    (respond : store_call -> delete_result) : list obs :=
  let call := DeleteById d (rf_bucketName f) (rf_id f) in
  OStore call ::
  match respond call with
  | Deleted => [ORemoved (mkCb None None)]
  | DeleteFailed e => [ORemoved (cb_failed (FError e))]
  end.

(* ------------------------------------------------------------------ *)
(** ** Reading the observation log *)

Definition is_gate_event (ev : event) : bool :=
  match ev with
  | EvConnection _ _ | EvConnectionFailed _ => true
  | _ => false
  end.

(** The 'connection' / 'connectionFailed' events published, in order. *)
Fixpoint gate_events (l : list obs) : list event :=
  match l with
  | [] => []
  | OEvent ev :: l' => if is_gate_event ev then ev :: gate_events l' else gate_events l'
  | _ :: l' => gate_events l'
  end.

(** The outcomes every ready() promise settled with, in order. *)
Fixpoint ready_outcomes (l : list obs) : list outcome :=
  match l with
  | [] => []
  | OReady _ o :: l' => o :: ready_outcomes l'
  | _ :: l' => ready_outcomes l'
  end.

(** The callback invocations of upload [uid]. *)
Fixpoint callbacks (uid : nat) (l : list obs) : list cb_args :=
  match l with
  | [] => []
  | OCallback u a :: l' => if Nat.eqb u uid then a :: callbacks uid l' else callbacks uid l'
  | _ :: l' => callbacks uid l'
  end.

(** The 'streamError' events published for upload [uid]. *)
Fixpoint stream_errors (uid : nat) (l : list obs) : list error :=
  match l with
  | [] => []
  | OEvent (EvStreamError u e) :: l' =>
      if Nat.eqb u uid then e :: stream_errors uid l' else stream_errors uid l'
  | _ :: l' => stream_errors uid l'
  end.

(** The calls made into the GridFS driver, in order. *)
Fixpoint store_calls (l : list obs) : list store_call :=
  match l with
  | [] => []
  | OStore c :: l' => c :: store_calls l'
  | _ :: l' => store_calls l'
  end.

(** The invocations of the removal callback. *)
Fixpoint removal_callbacks (l : list obs) : list cb_args :=
  match l with
  | [] => []
  | ORemoved a :: l' => a :: removal_callbacks l'
  | _ :: l' => removal_callbacks l'
  end.

Definition terminal (p : phase) : bool :=
  match p with
  | Completed _ | Failed _ => true
  | AwaitingReadiness | Streaming _ => false
  end.

(** Error-first shape: a non-null error comes with a null result. *)
Definition well_shaped (a : cb_args) : Prop :=
  match cb_err a with
  | None => True
  | Some _ => cb_result a = None
  end.

Definition run_from (o : options) (tr : list input) : option storage :=
  match construct o with
  | Ok s => Some (run s tr)
  | Err _ => None
  end.

(* ------------------------------------------------------------------ *)
(** ** Invariants of reachable states *)

(** Observations that concern uploads only: no gate event, no ready(). *)
Definition quiet (x : obs) : Prop :=
  match x with
  | OCallback _ _ | OStore _ => True
  | OEvent (EvStreamError _ _) | OEvent (EvFile _ _) => True
  | _ => False
  end.

(** The readiness gate: one attempt; until it settles nothing has been
    published and db/client are null; once settled, the fields, the one
    gate event and every settled ready() promise agree with the outcome. *)
Definition inv_gate (s : storage) : Prop :=
  attempts s = 1 /\
  match gate s with
  | NotStarted => False
  | Pending =>
      db s = None /\ client s = None /\
      gate_events (log s) = [] /\ ready_outcomes (log s) = []
  | Settled g =>
      db s = outcome_db g /\ client s = outcome_client g /\ ready_waiters s = [] /\
      gate_events (log s) = [outcome_event g] /\ Forall (eq g) (ready_outcomes (log s))
  end.

Definition awaiting (mu : option upload) : bool :=
  match mu with
  | Some (mkUpload _ AwaitingReadiness) => true
  | _ => false
  end.

(** What the log says about one upload, given its phase: nothing before it
    ends, then exactly its one callback (and at most one 'streamError'). *)
Definition inv_upload_entry (ph : option phase) (cbs : list cb_args) (ses : list error)
  : Prop :=
  match ph with
  | None | Some AwaitingReadiness | Some (Streaming _) => cbs = [] /\ ses = []
  | Some (Completed r) => cbs = [cb_succeeded r] /\ ses = []
  | Some (Failed f) => cbs = [cb_failed f] /\ length ses <= 1
  end.

Definition entries_ok (ups : gmap nat upload) (l : list obs) : Prop :=
  forall uid, inv_upload_entry (u_phase <$> ups !! uid) (callbacks uid l) (stream_errors uid l).

(** A list of observations that concerns upload [uid] only. *)
Definition only_about (uid : nat) (l : list obs) : Prop :=
  forall uid', uid' <> uid -> callbacks uid' l = [] /\ stream_errors uid' l = [].

(** The uploads: their log entries agree with their phases, and an upload
    awaits the gate only while the gate is pending and it is queued. *)
Definition inv_uploads (s : storage) : Prop :=
  entries_ok (uploads s) (log s) /\
  forall uid, awaiting (uploads s !! uid) = true ->
    gate s = Pending /\ In uid (upload_waiters s).

(* ------------------------------------------------------------------ *)
(** ** Small runs *)

Definition fresh_instance (o : options) : storage :=
  ensure_connecting (mkStorage o NotStarted 0 [] [] None None ∅ []).

Definition opts_promise : options := mkOptions None (Some DbPromised) None None.
Definition opts_handle : options :=
  mkOptions None (Some (DbGiven (CvDb (DbRef 3)))) (Some 4) None.

Definition fake_error : error := mkError (ErrExternal 1) "Fake error".

Example ready_before_and_after_failure :
  option_map log (run_from opts_promise
     [ICallReady 1; IConnSettled (Rejected fake_error); ICallReady 2])
  = Some [OEvent (EvConnectionFailed fake_error);
          OReady 1 (ConnFailed fake_error); OReady 2 (ConnFailed fake_error)].
Proof. reflexivity. Qed.

Definition file_error : error := mkError (ErrExternal 2) "File error".

(** A generator policy that yields once, then throws when resumed. *)
Definition opts_generator : options :=
  mkOptions None (Some (DbGiven (CvDb (DbRef 3)))) None
    (Some (PGen (fun _ => GYield (Returned VUndefined)
                            (fun _ => GThrow file_error) (fun e => GThrow e)))).

Definition ctx1 : upload_ctx := mkCtx 7 "sample1.jpg" "image/jpeg" "ab12".

Example upload_with_boolean_policy :
  option_map (fun s => callbacks 7 (log s))
    (run_from (mkOptions None (Some (DbGiven (CvDb (DbRef 3)))) None
                 (Some (PSync (fun _ => Returned (VBool true)))))
       [IConnSettled (Resolved (CvDb (DbRef 3))); IUpload ctx1])
  = Some [cb_failed (FError (mkError (ErrUpload 7)
            "Invalid type for file settings, got boolean"))].
Proof. reflexivity. Qed.

(* ================================================================== *)
(** * The test utilities

    test/utils/testutils.ts, test/global-cleanup.ts and the [afterEach]
    hooks of the test files: asynchronous helpers that talk to the
    driver.  Each is embedded as a computation in a small writer/exception
    monad [M]: the list of external calls it makes, in order, and how its
    promise settles.  How each driver call settles is supplied by a
    [world]. *)

Module TestUtils.

(** A value a promise rejects with.  The tests only throw objects;
    [message_of] is the object's [message] property ([None]: undefined). *)
Inductive thrown :=
| Thrown (id : nat) (message : option string)
| TypeError (message : string).

Definition message_of (t : thrown) : option string :=
  match t with
  | Thrown _ m => m
  | TypeError m => Some m
  end.

(** A database handle: a [Db] given as such, or [client.db(name)]
    ([name = None] for [client.db()]). *)
Inductive dbh :=
| DbObj (d : nat)
| DbOfClient (c : nat) (name : option string).

(** A client object with the two own properties [closeConnections]
    inspects: [readyState] (any value) and an [isConnected] method, given
    by what it returns.  A MongoClient has neither as an own property. *)
Record mclient := mkClient {
  cl_ref : nat;
  cl_own_readyState : option js_value;
  cl_own_isConnected : option bool
}.

(** What [MongoClient.connect] resolves to: a MongoClient, or (when the
    tests stub it) some other object, used as a database handle. *)
Inductive conn_obj :=
| CMongoClient (c : mclient)
| COther (d : dbh).

(** A storage instance, with its [db] and [client] fields. *)
Record mstorage := mkStorageObj {
  so_ref : nat;
  so_db : option dbh;
  so_client : option mclient
}.

Inductive handle :=
| HClient (c : nat)
| HDb (d : dbh).

(** The external calls, in the order they are made.  [force] is the
    argument of [close] ([None]: called without one). *)
Inductive effect :=
| ERemoveAllListeners (st : nat)
| EDropDatabase (d : dbh)
| ECloseClient (c : nat) (force : option bool)
| ECloseDb (d : dbh) (force : option bool)
| EConnect (url : string)
| EListDatabases (c : nat)
| ELog (msg : string)
| EConsoleError (msg : string) (detail : option string)
| EConsoleWarn (msg : string) (detail : option string)
| ESetTimeoutCall (cb : nat) (arg : option thrown)
| EDelay (ms : nat)
| ERestore
| EMongooseClose.

(** How each driver call settles: [None] resolves, [Some t] rejects. *)
Record world := mkWorld {
  w_connect : string -> thrown + conn_obj;
  w_drop : dbh -> option thrown;
  w_close : handle -> option thrown;
  w_has_close : dbh -> bool;             (* typeof db.close === 'function' *)
  w_list : nat -> thrown + list string;  (* names in listDatabases() *)
  w_parse_database : string -> option string;  (* parse(url).database *)
  w_default_database : string;           (* connection.database *)
  w_mongoose_close : option thrown
}.

(** ** The monad of an async function body *)

Inductive presult (A : Type) :=
| Done (a : A)
| Throw (t : thrown).
Arguments Done {A} a.
Arguments Throw {A} t.

Definition M (A : Type) : Type := (list effect * presult A)%type.

Definition ret {A} (a : A) : M A := ([], Done a).

Definition throw {A} (t : thrown) : M A := ([], Throw t).

Definition bind {A B} (m : M A) (f : A -> M B) : M B :=
  match m with
  | (l, Done a) => let (l', r) := f a in (l ++ l', r)
  | (l, Throw t) => (l, Throw t)
  end.

Local Notation "'let*' x ':=' m 'in' k" := (bind m (fun x => k))
  (at level 200, x name, m at level 100, k at level 200).

(** [try { m } catch (err) { h(err) }] *)
Definition catch {A} (m : M A) (h : thrown -> M A) : M A :=
  match m with
  | (l, Throw t) => let (l', r) := h t in (l ++ l', r)
  | _ => m
  end.

(** [try { m } finally { k }]: a throw in [k] replaces [m]'s completion. *)
Definition js_finally {A} (m : M A) (k : M unit) : M A :=
  let (l, r) := m in
  let (l', r') := k in
  (l ++ l', match r' with Throw t => Throw t | Done _ => r end).

Definition emit (e : effect) : M unit := ([e], Done tt).

(** [await] of an external call that settles as [resp]. *)
Definition call (e : effect) (resp : option thrown) : M unit :=
  match resp with
  | None => ([e], Done tt)
  | Some t => ([e], Throw t)
  end.

(** ** JavaScript string methods *)

(** [s.startsWith(pre)] *)
Fixpoint starts_with (s pre : string) : bool :=
  match pre, s with
  | EmptyString, _ => true
  | String c pre', String c' s' => Ascii.eqb c c' && starts_with s' pre'
  | String _ _, EmptyString => false
  end.

(** [s.includes(sub)] *)
Fixpoint includes (s sub : string) : bool :=
  starts_with s sub ||
  match s with
  | EmptyString => false
  | String _ s' => includes s' sub
  end.

(** Decimal rendering of a number in a template literal. *)
Fixpoint digits_of (fuel n : nat) (acc : string) : string :=
  match fuel with
  | 0 => acc
  | S f =>
      let acc' := String (Ascii.ascii_of_nat (48 + Nat.modulo n 10)) acc in
      if Nat.ltb n 10 then acc' else digits_of f (Nat.div n 10) acc'
  end.

Definition string_of_nat (n : nat) : string := digits_of (S n) n "".

(** ** testutils.ts *)

Definition ready_state_is_1 (c : mclient) : bool :=
  match cl_own_readyState c with
  | Some (VNumber z) => Z.eqb z 1
  | _ => false
  end.

Definition own_is_connected (c : mclient) : bool :=
  match cl_own_isConnected c with
  | Some b => b
  | None => false
  end.

(** [closeConnections({db, client})] *)
Definition closeConnections (w : world) (db : option dbh) (client : option mclient)
  : M unit :=
  match client with
  | Some c =>
      if ready_state_is_1 c then
        call (ECloseClient (cl_ref c) (Some true)) (w_close w (HClient (cl_ref c)))
      else if own_is_connected c then
        call (ECloseClient (cl_ref c) (Some true)) (w_close w (HClient (cl_ref c)))
      else ret tt
  | None =>
      match db with
      | Some d =>
          if w_has_close w d then call (ECloseDb d (Some true)) (w_close w (HDb d))
          else ret tt
      | None => ret tt
      end
  end.

(** [!error.message?.includes('must be connected')] *)
Definition rethrow_drop_error (err : thrown) : bool :=
  match message_of err with
  | Some m => negb (includes m "must be connected")
  | None => true
  end.

(** [cleanStorage(storage, {client = null, db = null} = {})] *)
Definition cleanStorage (w : world) (storage : option mstorage)
    (client : option mclient) (db : option dbh) : M unit :=
  match storage with
  | None => ret tt
  | Some st =>
      let* _ := emit (ERemoveAllListeners (so_ref st)) in
      let '(db, client) :=
        match db, client with
        | None, None => (so_db st, so_client st)
        | _, _ => (db, client)
        end in
      match db with
      | Some d =>
          let* _ := catch (call (EDropDatabase d) (w_drop w d))
                      (fun err => if rethrow_drop_error err then throw err else ret tt) in
          closeConnections w (Some d) client
      | None => ret tt
      end
  end.

(** [getDb(client, url)] *)
Definition getDb (w : world) (o : conn_obj) (url : string) : dbh :=
  match o with
  | CMongoClient c =>
      let name :=
        match w_parse_database w url with
        | Some EmptyString | None => w_default_database w
        | Some d => d
        end in
      DbOfClient (cl_ref c) (Some name)
  | COther d => d
  end.

(** [getClient(client)] *)
Definition getClient (o : conn_obj) : option mclient :=
  match o with
  | CMongoClient c => Some c
  | COther _ => None
  end.

(** [await MongoClient.connect(url, ...)] *)
Definition connect (w : world) (url : string) : M conn_obj :=
  match w_connect w url with
  | inl t => ([EConnect url], Throw t)
  | inr o => ([EConnect url], Done o)
  end.

(** [url] is truthy. *)
Definition url_set (url : option string) : bool :=
  match url with
  | None | Some EmptyString => false
  | Some _ => true
  end.

(** [dropDatabase(url)] *)
Definition dropDatabase (w : world) (url : option string) : M unit :=
  match url with
  | Some u =>
      if url_set url then
        let* _db := connect w u in
        let db := getDb w _db u in
        let client := getClient _db in
        let* _ := call (EDropDatabase db) (w_drop w db) in
        match client with
        | Some c => call (ECloseClient (cl_ref c) (Some true)) (w_close w (HClient (cl_ref c)))
        | None =>
            if w_has_close w db then call (ECloseDb db (Some true)) (w_close w (HDb db))
            else throw (TypeError "db.close is not a function")
        end
      else ret tt
  | None => ret tt
  end.

(** The function [fakeConnectCb(error)] returns, applied to [args]
    (references; [args[2]] is the callback when there are three). *)
Definition fakeConnectCb (error : option thrown) (args : list nat) : M unit :=
  if Nat.eqb (length args) 3 then
    match nth_error args 2 with
    | Some cb => let* _ := emit (ESetTimeoutCall cb error) in ret tt
    | None => ret tt
    end
  else
    let* _ := emit (EDelay 1) in
    match error with
    | Some e => throw e
    | None => ret tt
    end.

(** ** global-cleanup.ts *)

(** The [connection] settings ([port] as its template-literal rendering). *)
Record connection_settings := mkConnection {
  host : string;
  port : string;
  database : string
}.

(** The body of the [for] loop over the test databases. *)
Fixpoint drop_each (w : world) (c : nat) (names : list string) : M unit :=
  match names with
  | [] => ret tt
  | n :: ns =>
      let* _ :=
        catch (let* _ := call (EDropDatabase (DbOfClient c (Some n)))
                              (w_drop w (DbOfClient c (Some n))) in
               emit (ELog ("Dropped test database: " ++ n)%string))
              (fun err => emit (EConsoleError ("Failed to drop database " ++ n ++ ":")%string
                                              (message_of err))) in
      drop_each w c ns
  end.

Definition is_test_database (conn : connection_settings) (name : string) : bool :=
  starts_with name (database conn ++ "_")%string.

(** The [try] block after [client = await MongoClient.connect(url)]. *)
Definition cleanup_body (w : world) (conn : connection_settings) (o : conn_obj) : M unit :=
  match o with
  | CMongoClient c =>
      let* result :=
        match w_list w (cl_ref c) with
        | inl t => ([EListDatabases (cl_ref c)], Throw t)
        | inr names => ([EListDatabases (cl_ref c)], Done names)
        end in
      let testDatabases := List.filter (is_test_database conn) result in
      let* _ := emit (ELog ("Found " ++ string_of_nat (length testDatabases) ++
                            " test databases to clean up")%string) in
      let* _ := drop_each w (cl_ref c) testDatabases in
      emit (ELog "Test database cleanup completed")
  | COther _ => throw (TypeError "client.db is not a function")
  end.

(** The [finally] block: [if (client) await client.close()]. *)
Definition close_client (w : world) (o : conn_obj) : M unit :=
  match o with
  | CMongoClient c => call (ECloseClient (cl_ref c) None) (w_close w (HClient (cl_ref c)))
  | COther d =>
      if w_has_close w d then call (ECloseDb d None) (w_close w (HDb d))
      else throw (TypeError "client.close is not a function")
  end.

Definition connect_failed (err : thrown) : M unit :=
  emit (EConsoleError "Failed to connect for cleanup:" (message_of err)).

(** [`mongodb://${host}:${port}`] *)
Definition cleanup_url (conn : connection_settings) : string :=
  ("mongodb://" ++ host conn ++ ":" ++ port conn)%string.

(** [cleanupTestDatabases()] *)
Definition cleanupTestDatabases (w : world) (conn : connection_settings) : M unit :=
  let url := cleanup_url conn in
  match w_connect w url with
  | inl err =>
      (* [client] stays undefined: the [finally] block does nothing *)
      let* _ := emit (EConnect url) in
      connect_failed err
  | inr o =>
      let* _ := emit (EConnect url) in
      js_finally (catch (cleanup_body w conn o) connect_failed) (close_client w o)
  end.

(** ** The [afterEach] hooks *)

(** test/error-handling (part_001): [restore(); await cleanStorage(storage);
    return dropDatabase(url);] *)
Definition error_handling_afterEach (w : world) (storage : option mstorage)
    (url : option string) : M unit :=
  let* _ := emit ERestore in
  let* _ := cleanStorage w storage None None in
  dropDatabase w url.

(** test/file-removal-integration (the storage-constructor tests); the
    test's title and [mongoose.connection.readyState] are inputs. *)
Definition constructor_afterEach (w : world) (title : string) (storage : option mstorage)
    (url : option string) (mongoose_readyState : Z) : M unit :=
  let close_mongoose :=
    if negb (Z.eqb mongoose_readyState 0) then call EMongooseClose (w_mongoose_close w)
    else ret tt in
  if includes title "connects to a mongoose instance" then
    let* _ := close_mongoose in
    if url_set url then dropDatabase w url else ret tt
  else
    let* _ := catch (cleanStorage w storage None None)
                (fun err => emit (EConsoleWarn "Cleanup warning:" (message_of err))) in
    let* _ := close_mongoose in
    if url_set url then dropDatabase w url else ret tt.

(** ** Reading a trace *)

(** The databases a trace drops, in order. *)
Fixpoint drop_targets (l : list effect) : list dbh :=
  match l with
  | [] => []
  | EDropDatabase d :: l' => d :: drop_targets l'
  | _ :: l' => drop_targets l'
  end.

(** The close calls of a trace. *)
Definition is_close (e : effect) : bool :=
  match e with
  | ECloseClient _ _ | ECloseDb _ _ => true
  | _ => false
  end.

Definition settle_of (resp : option thrown) : presult unit :=
  match resp with
  | None => Done tt
  | Some t => Throw t
  end.

(** ** Sample inputs *)

Definition mongo_client1 : mclient := mkClient 1 None None.
Definition mongoose_conn1 : mclient := mkClient 2 (Some (VNumber 1)) None.
Definition db1 : dbh := DbObj 5.
Definition db2 : dbh := DbObj 6.
Definition conn1 : connection_settings := mkConnection "localhost" "27017" "gridfs_test".

Definition not_connected_error : thrown :=
  Thrown 1 (Some "Client must be connected before running operations").
Definition other_error : thrown := Thrown 2 (Some "Database error").

(** Dropping [db1] fails as on a closed client, dropping [db2] or the
    test database [gridfs_test_2] fails otherwise; everything else works. *)
Definition sample_drop (d : dbh) : option thrown :=
  match d with
  | DbObj 5 => Some not_connected_error
  | DbObj 6 => Some other_error
  | DbOfClient _ (Some n) => if String.eqb n "gridfs_test_2" then Some other_error else None
  | _ => None
  end.

Definition sample_world (cn : thrown + conn_obj) (ls : thrown + list string) : world :=
  mkWorld (fun _ => cn) sample_drop (fun _ => None) (fun _ => true) (fun _ => ls)
    (fun _ => None) "gridfs_test" None.

Definition sample_names : list string :=
  ["admin"; "gridfs_test"; "gridfs_test_1"; "gridfs_test_2"; "local"].

End TestUtils.

(* ------------------------------------------------------------------ *)
(** ** Log lemmas *)

Lemma gate_events_app (l1 l2 : list obs) :
  gate_events (l1 ++ l2) = gate_events l1 ++ gate_events l2.
Proof.
  induction l1 as [|[ev|c o|u a|a|c] l1 IH]; simpl; rewrite ?IH; try reflexivity.
  destruct (is_gate_event ev); reflexivity.
Qed.

Lemma ready_outcomes_app (l1 l2 : list obs) :
  ready_outcomes (l1 ++ l2) = ready_outcomes l1 ++ ready_outcomes l2.
Proof.
  induction l1 as [|[ev|c o|u a|a|c] l1 IH]; simpl; rewrite ?IH; reflexivity.
Qed.

Lemma callbacks_app (uid : nat) (l1 l2 : list obs) :
  callbacks uid (l1 ++ l2) = callbacks uid l1 ++ callbacks uid l2.
Proof.
  induction l1 as [|[ev|c o|u a|a|c] l1 IH]; simpl; rewrite ?IH; try reflexivity.
  destruct (Nat.eqb u uid); reflexivity.
Qed.

Lemma stream_errors_app (uid : nat) (l1 l2 : list obs) :
  stream_errors uid (l1 ++ l2) = stream_errors uid l1 ++ stream_errors uid l2.
Proof.
  induction l1 as [|[[d c|e|e|u e|u r]|c o|u a|a|c] l1 IH]; simpl; rewrite ?IH;
    try reflexivity.
  destruct (Nat.eqb u uid); reflexivity.
Qed.

Lemma quiet_gate_events (l : list obs) :
  Forall quiet l -> gate_events l = [] /\ ready_outcomes l = [].
Proof.
  induction 1 as [|[[d c|e|e|u e|u r]|c o|u a|a|c] l Hx _ IH]; simpl in *;
    tauto.
Qed.

Lemma ready_map_gate_events (g : outcome) (ws : list nat) :
  gate_events (map (fun w => OReady w g) ws) = [] /\
  Forall (eq g) (ready_outcomes (map (fun w => OReady w g) ws)).
Proof.
  induction ws as [|w ws [IH1 IH2]]; simpl; auto.
Qed.

Lemma after_ready_quiet (o : options) (g : outcome) (uid : nat) (ctx : upload_ctx) :
  Forall quiet (after_ready o g uid ctx).2.
Proof.
  unfold after_ready, configure.
  destruct g; [destruct (resolve_file_settings _ _) as [st|e];
               [destruct (fs_disabled st)|]|];
    repeat constructor.
Qed.

Lemma wake_upload_log (o : options) (g : outcome) (ups : gmap nat upload)
    (l : list obs) (uid : nat) :
  exists y, (wake_upload o g (ups, l) uid).2 = l ++ y /\ Forall quiet y.
Proof.
  unfold wake_upload.
  destruct (ups !! uid) as [[ctx [| | |]]|];
    try (exists []; rewrite app_nil_r; auto; fail).
  destruct (after_ready o g uid ctx) as [ph l'] eqn:Ea.
  exists l'. split; [reflexivity|].
  pose proof (after_ready_quiet o g uid ctx) as Hq. rewrite Ea in Hq. exact Hq.
Qed.

Lemma wake_fold_log (o : options) (g : outcome) (L : list nat) :
  forall ups l, exists x,
    (fold_left (wake_upload o g) L (ups, l)).2 = l ++ x /\ Forall quiet x.
Proof.
  induction L as [|uid L IH]; intros ups l; cbn [fold_left].
  - exists []. rewrite app_nil_r. auto.
  - destruct (wake_upload_log o g ups l uid) as [y [Hy Hqy]].
    destruct (wake_upload o g (ups, l) uid) as [ups' l1] eqn:Ew.
    simpl in Hy. subst l1.
    destruct (IH ups' (l ++ y)) as [x [Hx Hq]].
    exists (y ++ x). rewrite Hx, app_assoc. split; [reflexivity|].
    apply Forall_app; auto.
Qed.

Lemma ensure_connecting_id (s : storage) :
  gate s <> NotStarted -> ensure_connecting s = s.
Proof. unfold ensure_connecting. destruct (gate s); congruence. Qed.

Lemma construct_inv_gate (o : options) (s : storage) :
  construct o = Ok s -> inv_gate s.
Proof.
  unfold construct. destruct (url o), (db_opt o); intros H; inversion H; subst;
    repeat split; reflexivity.
Qed.

Lemma inv_gate_step (s : storage) (i : input) :
  inv_gate s -> inv_gate (step s i).
Proof.
  intros [Ha Hg].
  assert (Hns : gate s <> NotStarted) by (destruct (gate s); [contradiction|discriminate..]).
  destruct i as [c|r|ctx|uid ev|e]; simpl.
  - (* ready() *)
    unfold call_ready. rewrite (ensure_connecting_id s Hns).
    destruct (gate s) as [| |g] eqn:Eg; [contradiction| |];
      unfold inv_gate; simpl; rewrite ?Eg; split; auto.
    destruct Hg as (Hd & Hc & Hw & He & Hr).
    rewrite gate_events_app, ready_outcomes_app, He. simpl.
    repeat split; auto. apply Forall_app; auto.
  - (* the connection settles *)
    unfold settle. destruct (gate s) as [| |g0] eqn:Eg; [contradiction| |].
    + destruct Hg as (Hd & Hc & He & Hr).
      set (g := normalize (configuration s) r).
      destruct (wake_fold_log (configuration s) g (upload_waiters s) (uploads s)
                  (log s ++ [OEvent (outcome_event g)] ++
                   map (fun w => OReady w g) (ready_waiters s))) as [x [Hx Hq]].
      destruct (fold_left _ _ _) as [ups l] eqn:Ef. simpl in Hx. subst l.
      destruct (quiet_gate_events x Hq) as [Hxe Hxr].
      destruct (ready_map_gate_events g (ready_waiters s)) as [Hme Hmr].
      unfold inv_gate; simpl. split; [exact Ha|].
      assert (Hig : is_gate_event (outcome_event g) = true) by (destruct g; reflexivity).
      rewrite !gate_events_app, !ready_outcomes_app, He, Hr, Hxe, Hxr.
      cbn [gate_events ready_outcomes app]. rewrite Hig, Hme, !app_nil_r.
      repeat split; auto.
    + unfold inv_gate. rewrite Eg. split; assumption.
  - (* an upload arrives *)
    unfold start_upload.
    destruct (uploads s !! ctx_uid ctx); [unfold inv_gate; split; assumption|].
    rewrite (ensure_connecting_id s Hns).
    destruct (gate s) as [| |g] eqn:Eg; [contradiction| |].
    + unfold inv_gate; simpl. split; assumption.
    + pose proof (after_ready_quiet (configuration s) g (ctx_uid ctx) ctx) as Hq.
      destruct (after_ready _ _ _ _) as [ph l] eqn:Ea. simpl in Hq.
      destruct (quiet_gate_events l Hq) as [Hle Hlr].
      destruct Hg as (Hd & Hc & Hw & He & Hr).
      unfold inv_gate; simpl; rewrite ?Eg.
      rewrite gate_events_app, ready_outcomes_app, He, Hle, Hlr, !app_nil_r.
      repeat split; auto.
  - (* a stream reports *)
    unfold stream_step.
    destruct (uploads s !! uid) as [[uctx [| st | |]]|] eqn:Eu;
      try (unfold inv_gate; split; assumption).
    destruct ev as [e|e|id len md5];
      unfold inv_gate in *; simpl; split; try exact Ha;
      destruct (gate s); try contradiction;
      rewrite !gate_events_app, !ready_outcomes_app; simpl; rewrite !app_nil_r;
      exact Hg.
  - (* a native database error *)
    unfold db_error.
    destruct (gate s) as [| |[d c|e0]] eqn:Eg;
      try (unfold inv_gate; rewrite Eg; split; assumption).
    unfold inv_gate; simpl. split; [exact Ha|].
    rewrite !gate_events_app, !ready_outcomes_app; simpl; rewrite !app_nil_r.
    exact Hg.
Qed.

Lemma inv_gate_run (s : storage) (tr : list input) :
  inv_gate s -> inv_gate (run s tr).
Proof.
  unfold run. revert s. induction tr as [|i tr IH]; intros s H; simpl; auto.
  apply IH, inv_gate_step, H.
Qed.

Lemma reachable_inv_gate (o : options) (s : storage) :
  reachable o s -> inv_gate s.
Proof.
  intros (s0 & tr & Hc & ->). apply inv_gate_run, (construct_inv_gate o), Hc.
Qed.

Lemma reachable_run (o : options) (s : storage) (tr : list input) :
  reachable o s -> reachable o (run s tr).
Proof.
  intros (s0 & tr0 & Hc & ->). exists s0, (tr0 ++ tr). split; [exact Hc|].
  unfold run. rewrite fold_left_app. reflexivity.
Qed.

Lemma reachable_step (o : options) (s : storage) (i : input) :
  reachable o s -> reachable o (step s i).
Proof. intros H. apply (reachable_run o s [i] H). Qed.

(** Once settled, the gate never changes again. *)
Lemma gate_settled_step (s : storage) (i : input) (g : outcome) :
  gate s = Settled g -> gate (step s i) = Settled g.
Proof.
  intros Eg. destruct i as [c|r|ctx|uid ev|e]; simpl.
  - unfold call_ready. rewrite ensure_connecting_id by congruence.
    rewrite Eg. reflexivity.
  - unfold settle. rewrite Eg. exact Eg.
  - unfold start_upload. destruct (uploads s !! ctx_uid ctx); [exact Eg|].
    rewrite ensure_connecting_id by congruence. rewrite Eg.
    destruct (after_ready _ _ _ _). reflexivity.
  - unfold stream_step.
    destruct (uploads s !! uid) as [[uctx [| st | |]]|]; try exact Eg.
    destruct ev; exact Eg.
  - unfold db_error. rewrite Eg. destruct g; [reflexivity|exact Eg].
Qed.

Lemma gate_settled_run (s : storage) (tr : list input) (g : outcome) :
  gate s = Settled g -> gate (run s tr) = Settled g.
Proof.
  unfold run. revert s. induction tr as [|i tr IH]; intros s H; simpl; auto.
  apply IH, gate_settled_step, H.
Qed.

(** Once settled, a ready() call settles at once with the cached outcome. *)
Lemma call_ready_settled (s : storage) (caller : nat) (g : outcome) :
  gate s = Settled g -> log (call_ready caller s) = log s ++ [OReady caller g].
Proof.
  intros Eg. unfold call_ready. rewrite ensure_connecting_id by congruence.
  rewrite Eg. reflexivity.
Qed.

(** While pending, a ready() call waits on the gate. *)
Lemma call_ready_pending (s : storage) (caller : nat) :
  gate s = Pending ->
  log (call_ready caller s) = log s /\
  ready_waiters (call_ready caller s) = ready_waiters s ++ [caller].
Proof.
  intros Eg. unfold call_ready. rewrite ensure_connecting_id by congruence.
  rewrite Eg. auto.
Qed.

(** Settling the gate settles every waiting ready() promise with the outcome. *)
Lemma settle_ready_waiters (s : storage) (r : settle_result) :
  gate s = Pending ->
  exists x,
    log (settle r s) =
      log s ++ [OEvent (outcome_event (normalize (configuration s) r))] ++
      map (fun w => OReady w (normalize (configuration s) r)) (ready_waiters s) ++ x /\
    Forall quiet x.
Proof.
  intros Eg. unfold settle. rewrite Eg.
  set (g := normalize (configuration s) r).
  destruct (wake_fold_log (configuration s) g (upload_waiters s) (uploads s)
              (log s ++ [OEvent (outcome_event g)] ++
               map (fun w => OReady w g) (ready_waiters s))) as [x [Hx Hq]].
  destruct (fold_left _ _ _) as [ups l] eqn:Ef. simpl in Hx. subst l.
  exists x. simpl. rewrite <- !app_assoc. auto.
Qed.

Lemma configuration_step (s : storage) (i : input) :
  configuration (step s i) = configuration s.
Proof.
  destruct i as [c|r|ctx|uid ev|e]; simpl.
  - unfold call_ready, ensure_connecting.
    destruct (gate s) eqn:E; simpl; rewrite ?E; reflexivity.
  - unfold settle. destruct (gate s); try reflexivity.
    destruct (fold_left _ _ _). reflexivity.
  - unfold start_upload. destruct (uploads s !! ctx_uid ctx); [reflexivity|].
    unfold ensure_connecting.
    destruct (gate s) as [| |g] eqn:E; simpl; rewrite ?E; try reflexivity.
    destruct (after_ready _ _ _ _). reflexivity.
  - unfold stream_step.
    destruct (uploads s !! uid) as [[uctx [| st | |]]|]; try reflexivity.
    destruct ev; reflexivity.
  - unfold db_error. destruct (gate s) as [| |[]]; reflexivity.
Qed.

Lemma reachable_configuration (o : options) (s : storage) :
  reachable o s -> configuration s = o.
Proof.
  intros (s0 & tr & Hc & ->).
  assert (H0 : configuration s0 = o).
  { revert Hc. unfold construct. destruct (url o), (db_opt o); intros H;
      inversion H; reflexivity. }
  rewrite <- H0. clear Hc H0. unfold run. revert s0.
  induction tr as [|i tr IH]; intros s0; simpl; [reflexivity|].
  rewrite IH. apply configuration_step.
Qed.

(* ------------------------------------------------------------------ *)
(** ** The readiness gate *)

(** C1: on every instance there is exactly one connection attempt, however
    many times ready() is called.  While the attempt is pending, ready()
    settles nothing and queues its caller; when it settles, every queued
    caller is settled with the one outcome, and every later call settles
    with that same cached outcome (the same value, hence the same Error
    object on failure). *)
Theorem ready_single_attempt_same_outcome (o : options) (s : storage) :
  reachable o s ->
  attempts s = 1 /\
  (gate s = Pending ->
     ready_outcomes (log s) = [] /\
     (forall caller, attempts (call_ready caller s) = 1 /\
        ready_waiters (call_ready caller s) = ready_waiters s ++ [caller]) /\
     (forall r, gate (settle r s) = Settled (normalize o r) /\
        ready_outcomes (log (settle r s)) =
          map (fun _ => normalize o r) (ready_waiters s))) /\
  (forall g, gate s = Settled g ->
     ready_waiters s = [] /\ Forall (eq g) (ready_outcomes (log s)) /\
     forall caller, attempts (call_ready caller s) = 1 /\
       ready_outcomes (log (call_ready caller s)) = ready_outcomes (log s) ++ [g]).
Proof.
  intros Hr. pose proof (reachable_configuration o s Hr) as Ho.
  destruct (reachable_inv_gate o s Hr) as [Ha Hg]. split; [exact Ha|]. split.
  - intros Eg. rewrite Eg in Hg. destruct Hg as (_ & _ & _ & Hro).
    split; [exact Hro|]. split.
    + intros caller. destruct (call_ready_pending s caller Eg) as [_ Hw].
      split; [|exact Hw].
      unfold call_ready. rewrite ensure_connecting_id by congruence.
      rewrite Eg. exact Ha.
    + intros r. split.
      * unfold settle. rewrite Eg, Ho. destruct (fold_left _ _ _). reflexivity.
      * destruct (settle_ready_waiters s r Eg) as [x [Hx Hq]].
        rewrite Hx, Ho, !ready_outcomes_app, Hro.
        destruct (quiet_gate_events x Hq) as [_ ->].
        rewrite app_nil_r. simpl.
        generalize (ready_waiters s) as ws.
        induction ws as [|w ws IH]; simpl; [reflexivity|].
        rewrite IH. reflexivity.
  - intros g Eg. rewrite Eg in Hg. destruct Hg as (_ & _ & Hw & _ & Hro).
    split; [exact Hw|]. split; [exact Hro|].
    intros caller. split.
    + unfold call_ready. rewrite ensure_connecting_id by congruence.
      rewrite Eg. exact Ha.
    + rewrite (call_ready_settled s caller g Eg), ready_outcomes_app. reflexivity.
Qed.

Lemma ready_single_attempt_same_outcome_witness :
  reachable opts_promise (run (fresh_instance opts_promise) [ICallReady 1]) /\
  attempts (run (fresh_instance opts_promise) [ICallReady 1]) = 1.
Proof.
  assert (H : reachable opts_promise (run (fresh_instance opts_promise) [ICallReady 1]))
    by (exists (fresh_instance opts_promise), [ICallReady 1]; split; reflexivity).
  split; [exact H|].
  exact (proj1 (ready_single_attempt_same_outcome opts_promise _ H)).
Defined.

(** C2: constructing with neither url nor db throws synchronously from
    the constructor, with the fixed message. *)
Theorem construct_requires_url_or_db (c : option client_ref) (f : option policy) :
  construct (mkOptions None None c f) = Err construct_error /\
  err_message construct_error =
    "Error creating storage engine. At least one of url or db option must be provided.".
Proof. split; reflexivity. Qed.

(** C3: when the connection attempt fails (the db promise, or the
    connect call for a url, rejects with [e]), 'connectionFailed' is the
    one gate event ever published and it carries [e] itself; the db field
    stays null through everything that happens afterwards. *)
Theorem connection_failure_reported_once (o : options) (s : storage) (e : error)
    (tr : list input) :
  reachable o s -> gate s = Pending ->
  (db_opt o = Some DbPromised \/ url o <> None) ->
  gate (run (step s (IConnSettled (Rejected e))) tr) = Settled (ConnFailed e) /\
  gate_events (log (run (step s (IConnSettled (Rejected e))) tr)) = [EvConnectionFailed e] /\
  db (run (step s (IConnSettled (Rejected e))) tr) = None.
Proof.
  intros Hr Eg Hform.
  assert (Hn : normalize o (Rejected e) = ConnFailed e).
  { unfold normalize. destruct (url o) as [u|]; [reflexivity|].
    destruct Hform as [-> | Hu]; [reflexivity|congruence]. }
  assert (Hs : gate (step s (IConnSettled (Rejected e))) = Settled (ConnFailed e)).
  { simpl. unfold settle. rewrite Eg, (reachable_configuration o s Hr), Hn.
    destruct (fold_left _ _ _). reflexivity. }
  pose proof (gate_settled_run _ tr _ Hs) as Hg.
  pose proof (reachable_inv_gate o _ (reachable_run o _ tr (reachable_step o s (IConnSettled (Rejected e)) Hr)))
    as [_ Hi].
  rewrite Hg in Hi. destruct Hi as (Hd & _ & _ & He & _).
  repeat split; assumption.
Qed.

Lemma connection_failure_reported_once_witness :
  reachable opts_promise (fresh_instance opts_promise) /\
  gate (fresh_instance opts_promise) = Pending /\
  (db_opt opts_promise = Some DbPromised \/ url opts_promise <> None) /\
  db (run (step (fresh_instance opts_promise) (IConnSettled (Rejected fake_error)))
        [ICallReady 1]) = None.
Proof.
  assert (Hr : reachable opts_promise (fresh_instance opts_promise))
    by (exists (fresh_instance opts_promise), []; split; reflexivity).
  assert (Hp : gate (fresh_instance opts_promise) = Pending) by reflexivity.
  assert (Hf : db_opt opts_promise = Some DbPromised \/ url opts_promise <> None)
    by (left; reflexivity).
  split; [exact Hr|]. split; [exact Hp|]. split; [exact Hf|].
  exact (proj2 (proj2 (connection_failure_reported_once opts_promise _ fake_error
                          [ICallReady 1] Hr Hp Hf))).
Defined.

(** C6: when the connection succeeds with [(d, c)], the db field is the
    non-null [d], the client field is [c], 'connection' carrying [(d, c)]
    is the one gate event published, every settled ready() promise
    resolved to [(d, c)], and a ready() call made afterwards resolves to
    that same pair. *)
Theorem connection_success_ready_pair (o : options) (s : storage)
    (d : db_ref) (c : option client_ref) :
  reachable o s -> gate s = Settled (Connected d c) ->
  db s = Some d /\ client s = c /\
  gate_events (log s) = [EvConnection d c] /\
  Forall (eq (Connected d c)) (ready_outcomes (log s)) /\
  (forall caller, log (call_ready caller s) = log s ++ [OReady caller (Connected d c)]).
Proof.
  intros Hr Eg.
  destruct (reachable_inv_gate o s Hr) as [_ Hi]. rewrite Eg in Hi.
  destruct Hi as (Hd & Hc & _ & He & Hro).
  repeat split; try assumption.
  intros caller. apply call_ready_settled, Eg.
Qed.

Lemma connection_success_ready_pair_witness :
  reachable opts_handle
    (run (fresh_instance opts_handle) [IConnSettled (Resolved (CvDb (DbRef 3)))]) /\
  gate (run (fresh_instance opts_handle) [IConnSettled (Resolved (CvDb (DbRef 3)))])
    = Settled (Connected (DbRef 3) (Some 4)) /\
  db (run (fresh_instance opts_handle) [IConnSettled (Resolved (CvDb (DbRef 3)))])
    = Some (DbRef 3).
Proof.
  assert (Hr : reachable opts_handle
    (run (fresh_instance opts_handle) [IConnSettled (Resolved (CvDb (DbRef 3)))]))
    by (exists (fresh_instance opts_handle), [IConnSettled (Resolved (CvDb (DbRef 3)))];
        split; reflexivity).
  assert (Hg : gate (run (fresh_instance opts_handle)
                   [IConnSettled (Resolved (CvDb (DbRef 3)))])
               = Settled (Connected (DbRef 3) (Some 4))) by reflexivity.
  split; [exact Hr|]. split; [exact Hg|].
  exact (proj1 (connection_success_ready_pair opts_handle _ _ _ Hr Hg)).
Defined.

(* ------------------------------------------------------------------ *)
(** ** Uploads: the orchestrator's bookkeeping *)

Lemma after_ready_shape (o : options) (g : outcome) (uid : nat) (ctx : upload_ctx) :
  (exists f, after_ready o g uid ctx = (Failed f, [OCallback uid (cb_failed f)])) \/
  (exists st c, after_ready o g uid ctx = (Streaming st, [OStore c])).
Proof.
  unfold after_ready, configure.
  destruct g; [destruct (resolve_file_settings _ _) as [st|e];
               [destruct (fs_disabled st)|]|]; eauto.
Qed.

Lemma callbacks_single_ne (uid uid' : nat) (a : cb_args) :
  uid' <> uid -> callbacks uid' [OCallback uid a] = [].
Proof. intros Hne. simpl. destruct (Nat.eqb_spec uid uid'); congruence. Qed.

Lemma after_ready_entry (o : options) (g : outcome) (uid : nat) (ctx : upload_ctx) :
  inv_upload_entry (Some (after_ready o g uid ctx).1)
    (callbacks uid (after_ready o g uid ctx).2)
    (stream_errors uid (after_ready o g uid ctx).2) /\
  only_about uid (after_ready o g uid ctx).2 /\
  awaiting (Some (mkUpload ctx (after_ready o g uid ctx).1)) = false.
Proof.
  destruct (after_ready_shape o g uid ctx) as [[f ->]|(st & c & ->)]; simpl.
  - rewrite Nat.eqb_refl. split; [split; [reflexivity|simpl; lia]|].
    split; [|reflexivity].
    intros uid' Hne. split; [apply callbacks_single_ne, Hne|reflexivity].
  - split; [split; reflexivity|]. split; [|reflexivity].
    intros uid' _. split; reflexivity.
Qed.

Lemma entries_ok_update (ups : gmap nat upload) (l l' : list obs) (uid : nat)
    (ctx : upload_ctx) (ph : phase) :
  entries_ok ups l -> callbacks uid l = [] -> stream_errors uid l = [] ->
  inv_upload_entry (Some ph) (callbacks uid l') (stream_errors uid l') ->
  only_about uid l' ->
  entries_ok (<[uid := mkUpload ctx ph]> ups) (l ++ l').
Proof.
  intros Hok Hc Hs Hph Hab uid0. rewrite callbacks_app, stream_errors_app.
  destruct (decide (uid0 = uid)) as [->|Hne].
  - rewrite lookup_insert_eq, Hc, Hs. exact Hph.
  - rewrite lookup_insert_ne by congruence.
    destruct (Hab uid0 Hne) as [-> ->]. rewrite !app_nil_r. apply Hok.
Qed.

Lemma entries_ok_append (ups : gmap nat upload) (l l' : list obs) :
  entries_ok ups l ->
  (forall uid, callbacks uid l' = [] /\ stream_errors uid l' = []) ->
  entries_ok ups (l ++ l').
Proof.
  intros Hok Hl uid. rewrite callbacks_app, stream_errors_app.
  destruct (Hl uid) as [-> ->]. rewrite !app_nil_r. apply Hok.
Qed.

Lemma entry_not_started (ups : gmap nat upload) (l : list obs) (uid : nat) :
  entries_ok ups l -> (ups !! uid = None \/ awaiting (ups !! uid) = true) ->
  callbacks uid l = [] /\ stream_errors uid l = [].
Proof.
  intros Hok Hn. specialize (Hok uid).
  destruct Hn as [Hn|Hn]; [rewrite Hn in Hok; exact Hok|].
  destruct (ups !! uid) as [[ctx [| | |]]|]; simpl in *; try discriminate; exact Hok.
Qed.

Lemma wake_entries (o : options) (g : outcome) (ups : gmap nat upload) (l : list obs)
    (x : nat) :
  entries_ok ups l ->
  entries_ok (wake_upload o g (ups, l) x).1 (wake_upload o g (ups, l) x).2.
Proof.
  intros Hok. unfold wake_upload.
  destruct (ups !! x) as [[ctx [| | |]]|] eqn:E; simpl; try exact Hok.
  destruct (after_ready_entry o g x ctx) as (He & Hab & _).
  destruct (after_ready o g x ctx) as [ph l'] eqn:Ea. simpl in *.
  destruct (entry_not_started ups l x Hok) as [Hc Hs]; [right; rewrite E; reflexivity|].
  apply entries_ok_update; assumption.
Qed.

Lemma wake_frame (o : options) (g : outcome) (ups : gmap nat upload) (l : list obs)
    (x uid : nat) :
  awaiting (ups !! uid) = false ->
  (wake_upload o g (ups, l) x).1 !! uid = ups !! uid /\
  callbacks uid (wake_upload o g (ups, l) x).2 = callbacks uid l /\
  stream_errors uid (wake_upload o g (ups, l) x).2 = stream_errors uid l.
Proof.
  intros Hna. unfold wake_upload.
  destruct (ups !! x) as [[ctx [| | |]]|] eqn:E; simpl; auto.
  assert (Hne : x <> uid) by (intros ->; rewrite E in Hna; discriminate).
  destruct (after_ready_entry o g x ctx) as (_ & Hab & _).
  destruct (after_ready o g x ctx) as [ph l'] eqn:Ea. simpl in *.
  rewrite lookup_insert_ne by exact Hne.
  rewrite callbacks_app, stream_errors_app.
  destruct (Hab uid (not_eq_sym Hne)) as [-> ->]. rewrite !app_nil_r. auto.
Qed.

Lemma wake_clears (o : options) (g : outcome) (ups : gmap nat upload) (l : list obs)
    (x uid : nat) :
  awaiting ((wake_upload o g (ups, l) x).1 !! uid) = true ->
  awaiting (ups !! uid) = true /\ uid <> x.
Proof.
  intros Ha.
  destruct (awaiting (ups !! uid)) eqn:Eu.
  - split; [reflexivity|]. intros ->. revert Ha. unfold wake_upload.
    destruct (ups !! x) as [[ctx [| | |]]|] eqn:E; simpl in *; try discriminate.
    destruct (after_ready_entry o g x ctx) as (_ & _ & Hna).
    destruct (after_ready o g x ctx) as [ph l'] eqn:Ea. simpl in *.
    rewrite lookup_insert_eq. simpl. congruence.
  - rewrite (proj1 (wake_frame o g ups l x uid Eu)), Eu in Ha. discriminate.
Qed.

Lemma fold_entries (o : options) (g : outcome) (L : list nat) :
  forall ups l, entries_ok ups l ->
  entries_ok (fold_left (wake_upload o g) L (ups, l)).1
             (fold_left (wake_upload o g) L (ups, l)).2.
Proof.
  induction L as [|x L IH]; intros ups l H; cbn [fold_left]; [exact H|].
  pose proof (wake_entries o g ups l x H) as H'.
  destruct (wake_upload o g (ups, l) x) as [ups' l']. apply IH, H'.
Qed.

Lemma fold_frame (o : options) (g : outcome) (L : list nat) (uid : nat) :
  forall ups l, awaiting (ups !! uid) = false ->
  (fold_left (wake_upload o g) L (ups, l)).1 !! uid = ups !! uid /\
  callbacks uid (fold_left (wake_upload o g) L (ups, l)).2 = callbacks uid l /\
  stream_errors uid (fold_left (wake_upload o g) L (ups, l)).2 = stream_errors uid l.
Proof.
  induction L as [|x L IH]; intros ups l H; cbn [fold_left]; [auto|].
  destruct (wake_frame o g ups l x uid H) as (H1 & H2 & H3).
  destruct (wake_upload o g (ups, l) x) as [ups' l']. simpl in *.
  rewrite <- H1 in H. destruct (IH ups' l' H) as (I1 & I2 & I3).
  rewrite I1, I2, I3. auto.
Qed.

Lemma fold_clears (o : options) (g : outcome) (L : list nat) (uid : nat) :
  forall ups l,
  awaiting ((fold_left (wake_upload o g) L (ups, l)).1 !! uid) = true ->
  awaiting (ups !! uid) = true /\ ~ In uid L.
Proof.
  induction L as [|x L IH]; intros ups l H; cbn [fold_left] in *; [auto|].
  pose proof (wake_clears o g ups l x uid) as Hw.
  destruct (wake_upload o g (ups, l) x) as [ups' l']. simpl in *.
  destruct (IH ups' l' H) as [Ha Hn].
  destruct (Hw Ha) as [Ha' Hne]. split; [exact Ha'|].
  intros [->|Hin]; [congruence|contradiction].
Qed.

Lemma gate_obs_not_upload (g : outcome) (ws : list nat) (uid : nat) :
  callbacks uid ([OEvent (outcome_event g)] ++ map (fun w => OReady w g) ws) = [] /\
  stream_errors uid ([OEvent (outcome_event g)] ++ map (fun w => OReady w g) ws) = [].
Proof.
  destruct g; simpl; (induction ws as [|w ws IH]; simpl; [auto|exact IH]).
Qed.

Lemma construct_inv_uploads (o : options) (s : storage) :
  construct o = Ok s -> inv_uploads s.
Proof.
  unfold construct. destruct (url o), (db_opt o); intros H; inversion H; subst;
    split; try (intros uid; simpl; rewrite lookup_empty; simpl; auto; fail);
    intros uid; simpl; rewrite lookup_empty; discriminate.
Qed.

Lemma inv_uploads_step (s : storage) (i : input) :
  inv_gate s -> inv_uploads s -> inv_uploads (step s i).
Proof.
  intros [_ Hg] [Hok Hw].
  assert (Hns : gate s <> NotStarted) by (destruct (gate s); [contradiction|discriminate..]).
  destruct i as [c|r|ctx|uid ev|e]; simpl.
  - (* ready() *)
    unfold call_ready. rewrite (ensure_connecting_id s Hns).
    destruct (gate s) eqn:Eg; [contradiction| |]; split; simpl; auto.
    apply entries_ok_append; [exact Hok|]. intros uid. simpl. auto.
  - (* the connection settles *)
    unfold settle. destruct (gate s) as [| |g0] eqn:Eg; [contradiction| |].
    + set (g := normalize (configuration s) r).
      pose proof (fold_entries (configuration s) g (upload_waiters s) (uploads s)
                    (log s ++ [OEvent (outcome_event g)] ++
                     map (fun w => OReady w g) (ready_waiters s))) as Hf.
      assert (Hc : forall uid,
        awaiting ((fold_left (wake_upload (configuration s) g) (upload_waiters s)
                    (uploads s, log s ++ [OEvent (outcome_event g)] ++
                       map (fun w => OReady w g) (ready_waiters s))).1 !! uid) = true ->
        awaiting (uploads s !! uid) = true /\ ~ In uid (upload_waiters s))
        by (intros uid; apply fold_clears).
      destruct (fold_left _ _ _) as [ups l] eqn:Ef. simpl in *.
      split; simpl.
      * apply Hf, entries_ok_append; [exact Hok|].
        intros uid. apply gate_obs_not_upload.
      * intros uid Ha. destruct (Hc uid Ha) as [Ha0 Hn].
        destruct (Hw uid Ha0) as [_ Hin]. contradiction.
    + rewrite <- Eg in Hw. split; assumption.
  - (* an upload arrives *)
    unfold start_upload.
    destruct (uploads s !! ctx_uid ctx) eqn:Eu; [split; assumption|].
    rewrite (ensure_connecting_id s Hns).
    destruct (entry_not_started (uploads s) (log s) (ctx_uid ctx) Hok (or_introl Eu))
      as [Hc0 Hs0].
    destruct (gate s) as [| |g] eqn:Eg; [contradiction| |].
    + split; simpl.
      * intros uid0. destruct (decide (uid0 = ctx_uid ctx)) as [->|Hne].
        -- rewrite lookup_insert_eq. simpl. rewrite Hc0, Hs0. auto.
        -- rewrite lookup_insert_ne by congruence. apply Hok.
      * intros uid0 Ha. split; [reflexivity|].
        destruct (decide (uid0 = ctx_uid ctx)) as [->|Hne].
        -- apply in_or_app. right. left. reflexivity.
        -- rewrite lookup_insert_ne in Ha by congruence.
           apply in_or_app. left. apply (Hw uid0 Ha).
    + destruct (after_ready_entry (configuration s) g (ctx_uid ctx) ctx)
        as (He & Hab & Hna).
      destruct (after_ready _ _ _ _) as [ph l] eqn:Ea. simpl in *.
      split; simpl.
      * apply entries_ok_update; assumption.
      * intros uid0 Ha.
        destruct (decide (uid0 = ctx_uid ctx)) as [->|Hne].
        -- rewrite lookup_insert_eq in Ha. simpl in Ha. congruence.
        -- rewrite lookup_insert_ne in Ha by congruence.
           destruct (Hw uid0 Ha) as [Hp _]. discriminate.
  - (* a stream reports *)
    unfold stream_step.
    destruct (uploads s !! uid) as [[uctx [| st | |]]|] eqn:Eu;
      try (split; assumption).
    pose proof (Hok uid) as Hu. rewrite Eu in Hu. destruct Hu as [Hc0 Hs0].
    assert (Hrest : forall uid0, awaiting (<[uid:=mkUpload uctx (Failed FSkip)]>
                      (uploads s) !! uid0) = true -> True) by auto.
    clear Hrest.
    destruct ev as [e|e|id len md5]; split; simpl;
      try (intros uid0 Ha; destruct (decide (uid0 = uid)) as [->|Hne];
           [rewrite lookup_insert_eq in Ha; discriminate
           |rewrite lookup_insert_ne in Ha by congruence; apply Hw, Ha]);
      (apply entries_ok_update; try assumption;
       [simpl; rewrite Nat.eqb_refl; simpl; auto
       |intros uid' Hne; simpl; destruct (Nat.eqb_spec uid uid'); [congruence|auto]]).
  - (* a native database error *)
    unfold db_error.
    destruct (gate s) as [| |[d c|e0]] eqn:Eg; [contradiction| | |];
      try (split; [exact Hok|intros uid Ha; rewrite Eg; apply Hw, Ha]).
    split; simpl.
    + apply entries_ok_append; [exact Hok|]. intros uid. simpl. auto.
    + intros uid Ha. destruct (Hw uid Ha) as [Hp _]. discriminate.
Qed.

Lemma reachable_inv_uploads (o : options) (s : storage) :
  reachable o s -> inv_uploads s.
Proof.
  intros (s0 & tr & Hc & ->).
  pose proof (construct_inv_gate o s0 Hc) as Hg.
  pose proof (construct_inv_uploads o s0 Hc) as Hu.
  clear Hc. unfold run. revert s0 Hg Hu.
  induction tr as [|i tr IH]; intros s0 Hg Hu; simpl; [exact Hu|].
  apply IH; [apply inv_gate_step, Hg|apply inv_uploads_step; assumption].
Qed.

(** The log only grows. *)
Lemma log_step (s : storage) (i : input) :
  exists x, log (step s i) = log s ++ x.
Proof.
  destruct i as [c|r|ctx|uid ev|e]; simpl.
  - unfold call_ready, ensure_connecting.
    destruct (gate s) eqn:E; simpl; rewrite ?E;
      first [exists []; rewrite app_nil_r; reflexivity | eexists; reflexivity].
  - unfold settle. destruct (gate s) eqn:E; try (exists []; rewrite app_nil_r; reflexivity).
    set (g := normalize (configuration s) r).
    destruct (wake_fold_log (configuration s) g (upload_waiters s) (uploads s)
                (log s ++ [OEvent (outcome_event g)] ++
                 map (fun w => OReady w g) (ready_waiters s))) as [x [Hx _]].
    destruct (fold_left _ _ _) as [ups l]. simpl in *. subst l.
    rewrite <- app_assoc. eexists. reflexivity.
  - unfold start_upload. destruct (uploads s !! ctx_uid ctx);
      [exists []; rewrite app_nil_r; reflexivity|].
    unfold ensure_connecting.
    destruct (gate s) as [| |g] eqn:E; simpl; rewrite ?E;
      try (exists []; rewrite app_nil_r; reflexivity).
    destruct (after_ready _ _ _ _). eexists. reflexivity.
  - unfold stream_step.
    destruct (uploads s !! uid) as [[uctx [| st | |]]|];
      try (exists []; rewrite app_nil_r; reflexivity).
    destruct ev; eexists; reflexivity.
  - unfold db_error. destruct (gate s) as [| |[]];
      try (exists []; rewrite app_nil_r; reflexivity).
    eexists. reflexivity.
Qed.

Lemma log_run (s : storage) (tr : list input) :
  exists x, log (run s tr) = log s ++ x.
Proof.
  unfold run. revert s. induction tr as [|i tr IH]; intros s; simpl.
  - exists []. rewrite app_nil_r. reflexivity.
  - destruct (IH (step s i)) as [x Hx]. destruct (log_step s i) as [y Hy].
    exists (y ++ x). rewrite Hx, Hy, app_assoc. reflexivity.
Qed.

Lemma start_upload_settled (s : storage) (ctx : upload_ctx) (g : outcome) :
  gate s = Settled g -> uploads s !! ctx_uid ctx = None ->
  log (start_upload ctx s) = log s ++ (after_ready (configuration s) g (ctx_uid ctx) ctx).2 /\
  (u_phase <$> uploads (start_upload ctx s) !! ctx_uid ctx) =
    Some (after_ready (configuration s) g (ctx_uid ctx) ctx).1.
Proof.
  intros Eg Eu. unfold start_upload. rewrite Eu.
  rewrite ensure_connecting_id by congruence. rewrite Eg.
  destruct (after_ready _ _ _ _) as [ph l]. simpl.
  rewrite lookup_insert_eq. auto.
Qed.

(* ------------------------------------------------------------------ *)
(** ** The configuration resolver *)

(** C4: a policy value that is neither absent (undefined / null) nor an
    object fails the upload with a configuration error whose message
    names [typeof] the value: "Invalid type for file settings, got
    boolean" for a boolean.  This holds on the path taken once the store
    is ready ([after_ready], used both by an upload arriving after the
    connection and by one woken when it settles), and the upload's
    callback receives that error. *)
Theorem invalid_settings_type_error (o : options) (d : db_ref) (c : option client_ref)
    (ctx : upload_ctx) (v : js_value) :
  invoke_policy (file o) ctx = Returned v ->
  v <> VUndefined -> v <> VNull -> (forall fc, v <> VObject fc) ->
  after_ready o (Connected d c) (ctx_uid ctx) ctx =
    (Failed (FError (settings_type_error (ctx_uid ctx) v)),
     [OCallback (ctx_uid ctx) (cb_failed (FError (settings_type_error (ctx_uid ctx) v)))]) /\
  err_message (settings_type_error (ctx_uid ctx) v) =
    String.append "Invalid type for file settings, got " (js_typeof v) /\
  (forall b, v = VBool b ->
     err_message (settings_type_error (ctx_uid ctx) v) =
       "Invalid type for file settings, got boolean") /\
  (forall s, configuration s = o -> gate s = Settled (Connected d c) ->
     uploads s !! ctx_uid ctx = None ->
     log (start_upload ctx s) =
       log s ++ [OCallback (ctx_uid ctx)
                   (cb_failed (FError (settings_type_error (ctx_uid ctx) v)))]).
Proof.
  intros Hv Hu Hn Ho.
  assert (Har : after_ready o (Connected d c) (ctx_uid ctx) ctx =
    (Failed (FError (settings_type_error (ctx_uid ctx) v)),
     [OCallback (ctx_uid ctx) (cb_failed (FError (settings_type_error (ctx_uid ctx) v)))])).
  { unfold after_ready, configure, resolve_file_settings. rewrite Hv.
    destruct v as [| |b|z|str|fc];
      first [reflexivity | congruence | exfalso; apply (Ho fc); reflexivity]. }

  split; [exact Har|]. split; [reflexivity|]. split.
  - intros b ->. reflexivity.
  - intros s Hc Eg Eu. destruct (start_upload_settled s ctx _ Eg Eu) as [Hl _].
    rewrite Hl, Hc, Har. reflexivity.
Qed.

Lemma invalid_settings_type_error_witness :
  let o := mkOptions None (Some (DbGiven (CvDb (DbRef 3)))) None
             (Some (PSync (fun _ => Returned (VBool true)))) in
  (invoke_policy (file o) ctx1 = Returned (VBool true) /\
   VBool true <> VUndefined /\ VBool true <> VNull /\
   (forall fc, VBool true <> VObject fc)) /\
  err_message (settings_type_error (ctx_uid ctx1) (VBool true)) =
    "Invalid type for file settings, got boolean".
Proof.
  intros o.
  assert (H1 : invoke_policy (file o) ctx1 = Returned (VBool true)) by reflexivity.
  assert (H2 : VBool true <> VUndefined) by discriminate.
  assert (H3 : VBool true <> VNull) by discriminate.
  assert (H4 : forall fc, VBool true <> VObject fc) by discriminate.
  split; [auto|].
  exact (proj1 (proj2 (proj2 (invalid_settings_type_error o (DbRef 3) None ctx1
                                 (VBool true) H1 H2 H3 H4))) true eq_refl).
Defined.

(** C5: a policy that throws [e] (a plain function throwing, an async
    function rejecting, or a generator throwing at a resumption point)
    fails the upload with [e] itself, so the callback's error carries
    [e]'s message; the three forms behave identically. *)
Theorem policy_throw_surfaces (o : options) (d : db_ref) (c : option client_ref)
    (ctx : upload_ctx) (e : error) :
  ((exists f, file o = Some (PSync f) /\ f ctx = Threw e) \/
   (exists f, file o = Some (PAsync f) /\ f ctx = Threw e) \/
   (exists f, file o = Some (PGen f) /\ drive (f ctx) = Threw e)) ->
  after_ready o (Connected d c) (ctx_uid ctx) ctx =
    (Failed (FError e), [OCallback (ctx_uid ctx) (cb_failed (FError e))]) /\
  (forall s, configuration s = o -> gate s = Settled (Connected d c) ->
     uploads s !! ctx_uid ctx = None ->
     log (start_upload ctx s) = log s ++ [OCallback (ctx_uid ctx) (cb_failed (FError e))]).
Proof.
  intros Hp.
  assert (Hi : invoke_policy (file o) ctx = Threw e).
  { destruct Hp as [(f & Hf & He)|[(f & Hf & He)|(f & Hf & He)]];
      unfold invoke_policy; rewrite Hf; exact He. }
  assert (Har : after_ready o (Connected d c) (ctx_uid ctx) ctx =
    (Failed (FError e), [OCallback (ctx_uid ctx) (cb_failed (FError e))])).
  { unfold after_ready, configure, resolve_file_settings. rewrite Hi. reflexivity. }
  split; [exact Har|].
  intros s Hc Eg Eu. destruct (start_upload_settled s ctx _ Eg Eu) as [Hl _].
  rewrite Hl, Hc, Har. reflexivity.
Qed.

Lemma policy_throw_surfaces_witness :
  ((exists f, file opts_generator = Some (PSync f) /\ f ctx1 = Threw file_error) \/
   (exists f, file opts_generator = Some (PAsync f) /\ f ctx1 = Threw file_error) \/
   (exists f, file opts_generator = Some (PGen f) /\ drive (f ctx1) = Threw file_error)) /\
  after_ready opts_generator (Connected (DbRef 3) None) (ctx_uid ctx1) ctx1 =
    (Failed (FError file_error), [OCallback (ctx_uid ctx1) (cb_failed (FError file_error))]).
Proof.
  assert (H : (exists f, file opts_generator = Some (PSync f) /\ f ctx1 = Threw file_error) \/
   (exists f, file opts_generator = Some (PAsync f) /\ f ctx1 = Threw file_error) \/
   (exists f, file opts_generator = Some (PGen f) /\ drive (f ctx1) = Threw file_error))
    by (right; right; eexists; split; reflexivity).
  split; [exact H|].
  exact (proj1 (policy_throw_surfaces opts_generator (DbRef 3) None ctx1 file_error H)).
Defined.

(* ------------------------------------------------------------------ *)
(** ** The removal operator *)

(** C7: removing a file issues exactly one delete, on the bucket and with
    the identifier taken from the record as they are (an ObjectId or its
    string form alike, unvalidated), and hands the driver's error object
    itself to the callback. *)
Theorem remove_file_single_delete (d : db_ref) (f : file_ref)
    (respond : store_call -> delete_result) :
  store_calls (_removeFile d f respond) = [DeleteById d (rf_bucketName f) (rf_id f)] /\
  (forall hex, store_calls (_removeFile d (mkFileRef (IdObjectId hex) (rf_bucketName f)) respond)
               = [DeleteById d (rf_bucketName f) (IdObjectId hex)]) /\
  (forall str, store_calls (_removeFile d (mkFileRef (IdString str) (rf_bucketName f)) respond)
               = [DeleteById d (rf_bucketName f) (IdString str)]) /\
  (forall e, respond (DeleteById d (rf_bucketName f) (rf_id f)) = DeleteFailed e ->
     removal_callbacks (_removeFile d f respond) = [mkCb (Some (FError e)) None]) /\
  (respond (DeleteById d (rf_bucketName f) (rf_id f)) = Deleted ->
     removal_callbacks (_removeFile d f respond) = [mkCb None None]).
Proof.
  unfold _removeFile.
  repeat split; intros;
    repeat match goal with
           | H : respond _ = _ |- _ => rewrite H
           | |- context [respond ?c] => destruct (respond c)
           end; reflexivity.
Qed.

(** C10: a record with no identifier at all is not guarded against: the
    delete is still issued with the undefined identifier, and the removal
    ends in exactly one callback invocation. *)
Theorem remove_file_missing_id (d : db_ref) (bucket : string)
    (respond : store_call -> delete_result) :
  store_calls (_removeFile d (mkFileRef IdUndefined bucket) respond) =
    [DeleteById d bucket IdUndefined] /\
  length (removal_callbacks (_removeFile d (mkFileRef IdUndefined bucket) respond)) = 1.
Proof.
  unfold _removeFile. simpl. destruct (respond _); split; reflexivity.
Qed.

(* ------------------------------------------------------------------ *)
(** ** Exactly one callback per upload and per removal *)

(** C8: in every reachable state, an upload that has not ended has had no
    callback, and an ended upload has had exactly one, [(null, record)]
    on success and [(failure, null)] on failure; every callback is
    error-first shaped.  No upload is left waiting once the gate has
    settled (a failed connection fails every waiting upload), a stream's
    first error or completion ends a streaming upload with its one
    callback, and a removal invokes its callback exactly once. *)
Theorem callback_exactly_once (o : options) (s : storage) :
  reachable o s ->
  (forall uid, uploads s !! uid = None -> callbacks uid (log s) = []) /\
  (forall uid u, uploads s !! uid = Some u ->
     match u_phase u with
     | Completed r => callbacks uid (log s) = [cb_succeeded r]
     | Failed f => callbacks uid (log s) = [cb_failed f]
     | AwaitingReadiness | Streaming _ => callbacks uid (log s) = []
     end) /\
  (forall uid a, In a (callbacks uid (log s)) -> well_shaped a) /\
  (forall g, gate s = Settled g -> forall uid u, uploads s !! uid = Some u ->
     u_phase u <> AwaitingReadiness) /\
  (forall uid ctx st ev, uploads s !! uid = Some (mkUpload ctx (Streaming st)) ->
     exists a, callbacks uid (log (step s (IStream uid ev))) = [a] /\ well_shaped a) /\
  (forall d f respond, exists a,
     removal_callbacks (_removeFile d f respond) = [a] /\ well_shaped a).
Proof.
  intros Hr. destruct (reachable_inv_uploads o s Hr) as [Hok Hw].
  split; [|split; [|split; [|split; [|split]]]].
  - intros uid Hn. pose proof (Hok uid) as H. rewrite Hn in H. apply H.
  - intros uid u Hu. pose proof (Hok uid) as H. rewrite Hu in H.
    destruct u as [ctx [| | |]]; apply H.
  - intros uid a Hin. pose proof (Hok uid) as H.
    destruct (uploads s !! uid) as [[ctx [| st | r | f]]|]; simpl in H;
      destruct H as [Hc _]; rewrite Hc in Hin;
      try contradiction; destruct Hin as [<-|[]]; simpl; reflexivity.
  - intros g Eg uid u Hu Ha. destruct u as [ctx ph]. simpl in Ha. subst ph.
    destruct (Hw uid) as [Hp _]; [rewrite Hu; reflexivity|]. congruence.
  - intros uid ctx st ev Hu. pose proof (Hok uid) as H. rewrite Hu in H.
    destruct H as [Hc _]. simpl. unfold stream_step. rewrite Hu.
    destruct ev; simpl; rewrite callbacks_app, Hc; simpl; rewrite Nat.eqb_refl;
      eexists; (split; [reflexivity|simpl; reflexivity]).
  - intros d f respond. unfold _removeFile. simpl.
    destruct (respond _); eexists; (split; [reflexivity|cbv; auto]).
Qed.

Lemma callback_exactly_once_witness :
  reachable opts_handle
    (run (fresh_instance opts_handle) [IConnSettled (Resolved (CvDb (DbRef 3))); IUpload ctx1]) /\
  callbacks 7 (log (run (fresh_instance opts_handle)
                      [IConnSettled (Resolved (CvDb (DbRef 3))); IUpload ctx1])) = [].
Proof.
  assert (Hr : reachable opts_handle
    (run (fresh_instance opts_handle) [IConnSettled (Resolved (CvDb (DbRef 3))); IUpload ctx1]))
    by (eexists _, _; split; reflexivity).
  split; [exact Hr|].
  destruct (callback_exactly_once opts_handle _ Hr) as (_ & H2 & _).
  exact (H2 7 (mkUpload ctx1 (Streaming (apply_defaults ctx1 empty_config))) eq_refl).
Defined.

(* ------------------------------------------------------------------ *)
(** ** A write-stream error stays with its upload *)

(** C9: an error on the GridFS write stream of a streaming upload fails
    that upload only: the storage publishes one 'streamError' for it and
    invokes its callback with the error, while the gate, the resolved
    db/client, the ready() results and every other upload are untouched;
    the upload never reports a second 'streamError', whatever follows. *)
Theorem write_stream_error_isolated (o : options) (s : storage) (uid : nat)
    (ctx : upload_ctx) (st : file_settings) (e : error) :
  reachable o s ->
  uploads s !! uid = Some (mkUpload ctx (Streaming st)) ->
  let s' := step s (IStream uid (DestError e)) in
  gate s' = gate s /\ db s' = db s /\ client s' = client s /\
  ready_outcomes (log s') = ready_outcomes (log s) /\
  (forall uid', uid' <> uid ->
     uploads s' !! uid' = uploads s !! uid' /\
     callbacks uid' (log s') = callbacks uid' (log s) /\
     stream_errors uid' (log s') = stream_errors uid' (log s)) /\
  uploads s' !! uid = Some (mkUpload ctx (Failed (FError e))) /\
  callbacks uid (log s') = [cb_failed (FError e)] /\
  (forall tr, stream_errors uid (log (run s' tr)) = [e]).
Proof.
  intros Hr Hu s'.
  destruct (reachable_inv_uploads o s Hr) as [Hok _].
  pose proof (Hok uid) as Hent. rewrite Hu in Hent. destruct Hent as [Hc0 Hs0].
  assert (Hs' : s' = mkStorage (configuration s) (gate s) (attempts s) (ready_waiters s)
                  (upload_waiters s) (db s) (client s)
                  (<[uid := mkUpload ctx (Failed (FError e))]> (uploads s))
                  (log s ++ [OEvent (EvStreamError uid e);
                             OCallback uid (cb_failed (FError e))]))
    by (unfold s'; simpl; unfold stream_step; rewrite Hu; reflexivity).
  assert (Hse : stream_errors uid (log s') = [e]).
  { rewrite Hs'. simpl. rewrite stream_errors_app, Hs0. simpl.
    rewrite Nat.eqb_refl. reflexivity. }
  split; [rewrite Hs'; reflexivity|].
  split; [rewrite Hs'; reflexivity|].
  split; [rewrite Hs'; reflexivity|].
  split; [rewrite Hs'; simpl; rewrite ready_outcomes_app; simpl;
          rewrite app_nil_r; reflexivity|].
  split.
  { intros uid' Hne. rewrite Hs'. simpl.
    assert (Hb : Nat.eqb uid uid' = false) by (apply Nat.eqb_neq; congruence).
    split; [apply lookup_insert_ne; congruence|].
    rewrite callbacks_app, stream_errors_app. simpl. rewrite Hb.
    rewrite !app_nil_r. split; reflexivity. }
  split; [rewrite Hs'; simpl; apply lookup_insert_eq|].
  split; [rewrite Hs'; simpl; rewrite callbacks_app, Hc0; simpl;
          rewrite Nat.eqb_refl; reflexivity|].
  intros tr.
  assert (Hr' : reachable o (run s' tr))
    by (apply reachable_run; unfold s'; apply reachable_step; exact Hr).
  destruct (reachable_inv_uploads o _ Hr') as [Hok' _].
  destruct (log_run s' tr) as [x Hx].
  pose proof (Hok' uid) as Hent'. rewrite Hx, stream_errors_app, Hse in Hent'.
  rewrite Hx, stream_errors_app, Hse.
  assert (Hlen : length (stream_errors uid x) = 0).
  { destruct (uploads (run s' tr) !! uid) as [[c [| p | r | f]]|]; simpl in Hent';
      destruct Hent' as [_ Hl]; try discriminate Hl; simpl in Hl; lia. }
  destruct (stream_errors uid x); [reflexivity|simpl in Hlen; discriminate].
Qed.

Lemma write_stream_error_isolated_witness :
  let s := run (fresh_instance opts_handle)
             [IConnSettled (Resolved (CvDb (DbRef 3))); IUpload ctx1] in
  (reachable opts_handle s /\
   uploads s !! 7 = Some (mkUpload ctx1 (Streaming (apply_defaults ctx1 empty_config)))) /\
  stream_errors 7 (log (run (step s (IStream 7 (DestError file_error))) [])) = [file_error].
Proof.
  intros s.
  assert (Hr : reachable opts_handle s) by (eexists _, _; split; reflexivity).
  assert (Hu : uploads s !! 7 =
               Some (mkUpload ctx1 (Streaming (apply_defaults ctx1 empty_config))))
    by reflexivity.
  split; [split; [exact Hr | exact Hu]|].
  exact (proj2 (proj2 (proj2 (proj2 (proj2 (proj2 (proj2
    (write_stream_error_isolated opts_handle s 7 ctx1 _ file_error Hr Hu))))))) []).
Defined.


(* ================================================================== *)
(** * Properties of the test utilities *)

Import TestUtils.

Lemma call_settle_of (e : effect) (r : option thrown) : call e r = ([e], settle_of r).
Proof. destruct r; reflexivity. Qed.

Lemma ascii_eqb_refl (a : Ascii.ascii) : Ascii.eqb a a = true.
Proof. apply Ascii.eqb_eq. reflexivity. Qed.

Lemma starts_with_app (p q : string) : starts_with (p ++ q)%string p = true.
Proof.
  induction p as [|a p IH]; simpl; [destruct q; reflexivity|].
  rewrite ascii_eqb_refl, IH. reflexivity.
Qed.

Lemma includes_app (a b c : string) : includes (a ++ b ++ c)%string b = true.
Proof.
  induction a as [|x a IH]; simpl.
  - destruct b; simpl; [destruct c; reflexivity|].
    rewrite ascii_eqb_refl, starts_with_app. reflexivity.
  - rewrite IH. apply orb_true_r.
Qed.

Lemma starts_with_own_prefix (s : string) : starts_with s (s ++ "_")%string = false.
Proof.
  induction s as [|a s IH]; simpl; [reflexivity|].
  rewrite ascii_eqb_refl, IH. reflexivity.
Qed.

Lemma drop_each_spec (w : world) (c : nat) (ns : list string) :
  exists l, drop_each w c ns = (l, Done tt) /\
    drop_targets l = map (fun n => DbOfClient c (Some n)) ns /\
    Forall (fun e => is_close e = false) l.
Proof.
  induction ns as [|n ns (l & E & Ht & Hc)]; simpl.
  - exists []. split; [reflexivity|]. split; [reflexivity|constructor].
  - destruct (w_drop w (DbOfClient c (Some n))); simpl; rewrite E;
      eexists; (split; [reflexivity|]); simpl; rewrite Ht;
      (split; [reflexivity|]); repeat constructor; assumption.
Qed.

(** Extra (testutils.ts, [closeConnections]): it makes at most one call,
    a [close(true)]; a db is closed only when no client is given, and the
    promise rejects only when that close rejects. *)
Theorem closeConnections_at_most_one_forced_close (w : world) (db : option dbh)
    (client : option mclient) :
  closeConnections w db client = ([], Done tt) \/
  (exists c, client = Some c /\
     closeConnections w db client =
       ([ECloseClient (cl_ref c) (Some true)], settle_of (w_close w (HClient (cl_ref c))))) \/
  (exists d, client = None /\ db = Some d /\
     closeConnections w db client = ([ECloseDb d (Some true)], settle_of (w_close w (HDb d)))).
Proof.
  unfold closeConnections. destruct client as [c|].
  - destruct (ready_state_is_1 c); [|destruct (own_is_connected c)];
      try (right; left; exists c; split; [reflexivity|apply call_settle_of]).
    left. reflexivity.
  - destruct db as [d|]; [|left; reflexivity].
    destruct (w_has_close w d); [|left; reflexivity].
    right; right. exists d. split; [reflexivity|]. split; [reflexivity|apply call_settle_of].
Qed.

(** Extra (testutils.ts, [cleanStorage]): when dropping the storage's
    database rejects with an error whose message contains
    "must be connected", the error is swallowed and the connections are
    still closed; any other error, or one without a message, is rethrown
    and nothing is closed. *)
Theorem cleanStorage_drop_error (w : world) (st : mstorage) (d : dbh) (t : thrown) :
  so_db st = Some d -> w_drop w d = Some t ->
  ((exists pre post, message_of t = Some (pre ++ "must be connected" ++ post)%string) ->
     cleanStorage w (Some st) None None =
       ([ERemoveAllListeners (so_ref st); EDropDatabase d] ++
          fst (closeConnections w (Some d) (so_client st)),
        snd (closeConnections w (Some d) (so_client st)))) /\
  ((forall m, message_of t = Some m -> includes m "must be connected" = false) ->
     cleanStorage w (Some st) None None =
       ([ERemoveAllListeners (so_ref st); EDropDatabase d], Throw t)).
Proof.
  intros Hdb Hdrop. unfold cleanStorage. simpl. rewrite Hdb. simpl. rewrite Hdrop. simpl.
  unfold rethrow_drop_error. split.
  - intros (pre & post & Hm). rewrite Hm, includes_app. simpl.
    destruct (closeConnections w (Some d) (so_client st)); reflexivity.
  - intros Hm. destruct (message_of t) as [m|] eqn:Em; [rewrite (Hm m eq_refl)|]; reflexivity.
Qed.

(** Extra (testutils.ts, [cleanStorage] and [closeConnections]): for a
    storage whose client has no own [readyState] or [isConnected] (as a
    MongoClient), [cleanStorage(storage)] drops the storage's database
    once and never closes the client or the database. *)
Theorem cleanStorage_mongoclient_left_open (w : world) (st : mstorage) (d : dbh)
    (c : mclient) :
  so_db st = Some d -> so_client st = Some c ->
  cl_own_readyState c = None -> cl_own_isConnected c = None ->
  drop_targets (fst (cleanStorage w (Some st) None None)) = [d] /\
  Forall (fun e => is_close e = false) (fst (cleanStorage w (Some st) None None)) /\
  (w_drop w d = None -> snd (cleanStorage w (Some st) None None) = Done tt).
Proof.
  intros Hdb Hcl Hrs Hic. unfold cleanStorage. simpl. rewrite Hdb, Hcl. simpl.
  unfold closeConnections, ready_state_is_1, own_is_connected. rewrite Hrs, Hic.
  destruct (w_drop w d) as [t|]; simpl.
  - destruct (rethrow_drop_error t); simpl;
      (split; [reflexivity|]); (split; [repeat constructor|intros; discriminate]).
  - split; [reflexivity|]. split; [repeat constructor|reflexivity].
Qed.

Lemma drop_targets_app (l1 l2 : list effect) :
  drop_targets (l1 ++ l2) = drop_targets l1 ++ drop_targets l2.
Proof. induction l1 as [|[] l1 IH]; simpl; rewrite ?IH; reflexivity. Qed.

(** Extra (testutils.ts, [dropDatabase] with [getDb] and [getClient]):
    with a MongoClient, it drops the database named in the URL, or the
    default database when the URL names none or an empty one, then closes
    the client with [close(true)]. *)
Theorem dropDatabase_mongoclient (w : world) (u : string) (c : mclient) (name : string) :
  u <> "" -> w_connect w u = inr (CMongoClient c) ->
  (w_parse_database w u = Some name /\ name <> "" \/
   (w_parse_database w u = None \/ w_parse_database w u = Some "") /\
   name = w_default_database w) ->
  w_drop w (DbOfClient (cl_ref c) (Some name)) = None ->
  dropDatabase w (Some u) =
    ([EConnect u; EDropDatabase (DbOfClient (cl_ref c) (Some name));
      ECloseClient (cl_ref c) (Some true)],
     settle_of (w_close w (HClient (cl_ref c)))).
Proof.
  intros Hu Hc Hname Hdrop.
  assert (Hdb : getDb w (CMongoClient c) u = DbOfClient (cl_ref c) (Some name)).
  { unfold getDb. destruct Hname as [[Hp Hn]|[[Hp|Hp] ->]]; rewrite Hp; [|reflexivity..].
    destruct name; [contradiction|reflexivity]. }
  destruct u as [|ch u']; [contradiction|].
  unfold dropDatabase, connect. simpl url_set. cbv iota. rewrite Hc.
  cbn [bind]. rewrite Hdb, Hdrop. cbn [getClient call bind]. rewrite call_settle_of.
  reflexivity.
Qed.

(** Extra (testutils.ts, [dropDatabase]): a failed connect or a failed
    drop rejects with that same error, and no connection is closed. *)
Theorem dropDatabase_failure_no_close (w : world) (u : string) :
  u <> "" ->
  (forall t, w_connect w u = inl t -> dropDatabase w (Some u) = ([EConnect u], Throw t)) /\
  (forall o t, w_connect w u = inr o -> w_drop w (getDb w o u) = Some t ->
     dropDatabase w (Some u) = ([EConnect u; EDropDatabase (getDb w o u)], Throw t)).
Proof.
  intros Hu. destruct u as [|ch u']; [contradiction|].
  split.
  - intros t Hc. unfold dropDatabase, connect. simpl url_set. cbv iota. rewrite Hc.
    reflexivity.
  - intros o t Hc Hdrop. unfold dropDatabase, connect. simpl url_set. cbv iota. rewrite Hc.
    cbn [bind]. rewrite Hdrop. reflexivity.
Qed.

(** Extra (testutils.ts, [fakeConnectCb]): called with three arguments,
    the fake connect schedules one call of the third argument with the
    error and resolves; with any other number it rejects with the error,
    or resolves when there is none, and calls nothing back. *)
Theorem fakeConnectCb_callback_or_promise (error : option thrown) (args : list nat) :
  (length args = 3 ->
     exists cb, nth_error args 2 = Some cb /\
       fakeConnectCb error args = ([ESetTimeoutCall cb error], Done tt)) /\
  (length args <> 3 ->
     fakeConnectCb error args =
       ([EDelay 1], match error with Some e => Throw e | None => Done tt end)).
Proof.
  split.
  - intros Hl. destruct args as [|a [|b [|cb [|x args]]]]; simpl in Hl; try discriminate.
    exists cb. split; reflexivity.
  - intros Hl. unfold fakeConnectCb. apply Nat.eqb_neq in Hl. rewrite Hl.
    destruct error; reflexivity.
Qed.

(** Extra (global-cleanup.ts, [cleanupTestDatabases]): once connected
    and listed, it drops exactly the listed databases whose names start
    with [database + "_"], in order, whatever earlier drops did; the main
    database itself is never dropped; the client is closed once, last;
    and the result is that of the close, drop failures never reject. *)
Theorem cleanupTestDatabases_drops_test_databases (w : world) (conn : connection_settings)
    (c : mclient) (names : list string) :
  w_connect w (cleanup_url conn) = inr (CMongoClient c) ->
  w_list w (cl_ref c) = inr names ->
  drop_targets (fst (cleanupTestDatabases w conn)) =
    map (fun n => DbOfClient (cl_ref c) (Some n)) (List.filter (is_test_database conn) names) /\
  ~ In (DbOfClient (cl_ref c) (Some (database conn)))
      (drop_targets (fst (cleanupTestDatabases w conn))) /\
  (exists l, fst (cleanupTestDatabases w conn) = l ++ [ECloseClient (cl_ref c) None] /\
     Forall (fun e => is_close e = false) l) /\
  snd (cleanupTestDatabases w conn) = settle_of (w_close w (HClient (cl_ref c))).
Proof.
  intros Hc Hl.
  destruct (drop_each_spec w (cl_ref c) (List.filter (is_test_database conn) names))
    as (l & E & Ht & Hf).
  unfold cleanupTestDatabases. rewrite Hc. cbn [bind emit].
  unfold cleanup_body. rewrite Hl. cbn [bind emit]. rewrite E. cbn [bind emit app].
  unfold js_finally, close_client, catch. rewrite call_settle_of.
  destruct (w_close w (HClient (cl_ref c))) as [t|]; cbn [settle_of];
  (split; [|split; [|split]]).
  all: cbn [fst snd app drop_targets]; rewrite ?drop_targets_app; cbn [drop_targets];
    rewrite ?Ht, ?app_nil_r.
  all: try reflexivity.
  all: try (intros Hin; apply in_map_iff in Hin; destruct Hin as (n & Heq & Hin);
            injection Heq as ->; apply filter_In in Hin; destruct Hin as [_ Hp];
            unfold is_test_database in Hp; rewrite starts_with_own_prefix in Hp;
            discriminate).
  all: rewrite !app_comm_cons; eexists; split; [reflexivity|].
  all: apply (proj2 (List.Forall_app _ _ _)); split.
  all: repeat first [exact Hf | apply List.Forall_nil | apply List.Forall_cons | reflexivity].
Qed.

(** Extra (global-cleanup.ts, [cleanupTestDatabases]): a failed connect
    is logged and nothing else happens; a failed [listDatabases] is
    logged under the same "Failed to connect" message, nothing is dropped
    and the client is still closed. *)
Theorem cleanupTestDatabases_failures (w : world) (conn : connection_settings) :
  (forall t, w_connect w (cleanup_url conn) = inl t ->
     cleanupTestDatabases w conn =
       ([EConnect (cleanup_url conn);
         EConsoleError "Failed to connect for cleanup:" (message_of t)], Done tt)) /\
  (forall c t, w_connect w (cleanup_url conn) = inr (CMongoClient c) ->
     w_list w (cl_ref c) = inl t ->
     cleanupTestDatabases w conn =
       ([EConnect (cleanup_url conn); EListDatabases (cl_ref c);
         EConsoleError "Failed to connect for cleanup:" (message_of t);
         ECloseClient (cl_ref c) None],
        settle_of (w_close w (HClient (cl_ref c))))).
Proof.
  split.
  - intros t Hc. unfold cleanupTestDatabases. rewrite Hc. reflexivity.
  - intros c t Hc Hl. unfold cleanupTestDatabases. rewrite Hc. cbn [bind emit].
    unfold cleanup_body. rewrite Hl. cbn [bind].
    unfold js_finally, close_client, catch, connect_failed, emit. rewrite call_settle_of.
    destruct (w_close w (HClient (cl_ref c))); reflexivity.
Qed.

Lemma dropDatabase_unset (w : world) (url : option string) :
  url_set url = false -> dropDatabase w url = ([], Done tt).
Proof. intros H. destruct url as [[|a u]|]; try reflexivity. discriminate. Qed.

(** Extra (the error-handling tests' [afterEach]): when [cleanStorage]
    rejects, the hook rejects with that error and the URL's database is
    never dropped; when it resolves, [dropDatabase(url)] follows. *)
Theorem error_handling_afterEach_cleanup_failure (w : world) (storage : option mstorage)
    (url : option string) (l : list effect) :
  (forall t, cleanStorage w storage None None = (l, Throw t) ->
     error_handling_afterEach w storage url = (ERestore :: l, Throw t)) /\
  (cleanStorage w storage None None = (l, Done tt) ->
     error_handling_afterEach w storage url =
       (ERestore :: l ++ fst (dropDatabase w url), snd (dropDatabase w url))).
Proof.
  split.
  - intros t H. unfold error_handling_afterEach. cbn [bind emit]. rewrite H.
    reflexivity.
  - intros H. unfold error_handling_afterEach. cbn [bind emit]. rewrite H. cbn [bind].
    destruct (dropDatabase w url). reflexivity.
Qed.

(** Extra (the storage-constructor tests' [afterEach], tests other than
    the mongoose one): a [cleanStorage] rejection only logs a warning, and
    the URL's database is still dropped afterwards. *)
Theorem constructor_afterEach_cleanup_failure (w : world) (title : string)
    (storage : option mstorage) (url : option string) (rs : Z) (l : list effect)
    (t : thrown) :
  includes title "connects to a mongoose instance" = false ->
  cleanStorage w storage None None = (l, Throw t) ->
  (rs = 0%Z \/ w_mongoose_close w = None) ->
  constructor_afterEach w title storage url rs =
    (l ++ EConsoleWarn "Cleanup warning:" (message_of t) ::
       (if Z.eqb rs 0 then [] else [EMongooseClose]) ++ fst (dropDatabase w url),
     snd (dropDatabase w url)).
Proof.
  intros Ht Hcs Hm. unfold constructor_afterEach. rewrite Ht.
  unfold catch. rewrite Hcs. cbn [bind emit app].
  assert (Hd : (if url_set url then dropDatabase w url else ret tt) = dropDatabase w url)
    by (destruct (url_set url) eqn:E; [reflexivity|symmetry; apply dropDatabase_unset, E]).
  rewrite Hd.
  destruct (Z.eqb rs 0) eqn:Ez; cbn [negb bind ret app].
  - destruct (dropDatabase w url). rewrite <- app_assoc. reflexivity.
  - destruct Hm as [Hr|Hn]; [subst rs; discriminate|]. rewrite Hn. cbn [call bind].
    destruct (dropDatabase w url). rewrite <- app_assoc. reflexivity.
Qed.

Lemma cleanStorage_drop_error_witness :
  let st := mkStorageObj 3 (Some db1) (Some mongoose_conn1) in
  let w := sample_world (inr (CMongoClient mongo_client1)) (inr []) in
  (so_db st = Some db1 /\ w_drop w db1 = Some not_connected_error) /\
  cleanStorage w (Some st) None None =
    ([ERemoveAllListeners 3; EDropDatabase db1] ++
       fst (closeConnections w (Some db1) (Some mongoose_conn1)),
     snd (closeConnections w (Some db1) (Some mongoose_conn1))).
Proof.
  intros st w.
  assert (H1 : so_db st = Some db1) by reflexivity.
  assert (H2 : w_drop w db1 = Some not_connected_error) by reflexivity.
  split; [split; assumption|].
  apply (proj1 (cleanStorage_drop_error w st db1 not_connected_error H1 H2)).
  exists "Client ", " before running operations". reflexivity.
Defined.

Lemma cleanStorage_mongoclient_left_open_witness :
  let st := mkStorageObj 3 (Some db2) (Some mongo_client1) in
  let w := sample_world (inr (CMongoClient mongo_client1)) (inr []) in
  (so_db st = Some db2 /\ so_client st = Some mongo_client1 /\
   cl_own_readyState mongo_client1 = None /\ cl_own_isConnected mongo_client1 = None) /\
  drop_targets (fst (cleanStorage w (Some st) None None)) = [db2].
Proof.
  intros st w.
  assert (H1 : so_db st = Some db2) by reflexivity.
  assert (H2 : so_client st = Some mongo_client1) by reflexivity.
  assert (H3 : cl_own_readyState mongo_client1 = None) by reflexivity.
  assert (H4 : cl_own_isConnected mongo_client1 = None) by reflexivity.
  split; [repeat split; assumption|].
  exact (proj1 (cleanStorage_mongoclient_left_open w st db2 mongo_client1 H1 H2 H3 H4)).
Defined.

Lemma dropDatabase_mongoclient_witness :
  let w := sample_world (inr (CMongoClient mongo_client1)) (inr []) in
  let u := "mongodb://localhost:27017" in
  (u <> "" /\ w_connect w u = inr (CMongoClient mongo_client1) /\
   w_parse_database w u = None /\
   w_drop w (DbOfClient 1 (Some "gridfs_test")) = None) /\
  dropDatabase w (Some u) =
    ([EConnect u; EDropDatabase (DbOfClient 1 (Some "gridfs_test"));
      ECloseClient 1 (Some true)], Done tt).
Proof.
  intros w u.
  assert (H1 : u <> "") by discriminate.
  assert (H2 : w_connect w u = inr (CMongoClient mongo_client1)) by reflexivity.
  assert (H3 : w_parse_database w u = None /\ "gridfs_test" = w_default_database w)
    by (split; reflexivity).
  assert (H4 : w_drop w (DbOfClient 1 (Some "gridfs_test")) = None) by reflexivity.
  split; [split; [exact H1|split; [exact H2|split; [exact (proj1 H3)|exact H4]]]|].
  exact (dropDatabase_mongoclient w u mongo_client1 "gridfs_test" H1 H2
           (or_intror (conj (or_introl (proj1 H3)) (proj2 H3))) H4).
Defined.

Lemma dropDatabase_failure_no_close_witness :
  let u := "mongodb://localhost:27017" in
  dropDatabase (sample_world (inl other_error) (inr [])) (Some u) =
    ([EConnect u], Throw other_error) /\
  dropDatabase (sample_world (inr (COther db2)) (inr [])) (Some u) =
    ([EConnect u; EDropDatabase db2], Throw other_error).
Proof.
  intros u. assert (Hu : u <> "") by discriminate. split.
  - apply (proj1 (dropDatabase_failure_no_close _ u Hu)). reflexivity.
  - apply (proj2 (dropDatabase_failure_no_close (sample_world (inr (COther db2)) (inr [])) u Hu)
             (COther db2)); reflexivity.
Defined.

Lemma fakeConnectCb_callback_or_promise_witness :
  (exists cb, nth_error [10; 11; 12] 2 = Some cb /\
     fakeConnectCb (Some other_error) [10; 11; 12] =
       ([ESetTimeoutCall cb (Some other_error)], Done tt)) /\
  fakeConnectCb (Some other_error) [10] = ([EDelay 1], Throw other_error).
Proof.
  split.
  - apply (proj1 (fakeConnectCb_callback_or_promise (Some other_error) [10; 11; 12])).
    reflexivity.
  - apply (proj2 (fakeConnectCb_callback_or_promise (Some other_error) [10])).
    discriminate.
Defined.

Lemma cleanupTestDatabases_drops_test_databases_witness :
  let w := sample_world (inr (CMongoClient mongo_client1)) (inr sample_names) in
  (w_connect w (cleanup_url conn1) = inr (CMongoClient mongo_client1) /\
   w_list w 1 = inr sample_names) /\
  drop_targets (fst (cleanupTestDatabases w conn1)) =
    [DbOfClient 1 (Some "gridfs_test_1"); DbOfClient 1 (Some "gridfs_test_2")].
Proof.
  intros w.
  assert (H1 : w_connect w (cleanup_url conn1) = inr (CMongoClient mongo_client1))
    by reflexivity.
  assert (H2 : w_list w (cl_ref mongo_client1) = inr sample_names) by reflexivity.
  split; [split; assumption|].
  exact (proj1 (cleanupTestDatabases_drops_test_databases w conn1 mongo_client1
                  sample_names H1 H2)).
Defined.

Lemma cleanupTestDatabases_failures_witness :
  cleanupTestDatabases (sample_world (inl other_error) (inr [])) conn1 =
    ([EConnect "mongodb://localhost:27017";
      EConsoleError "Failed to connect for cleanup:" (Some "Database error")], Done tt) /\
  cleanupTestDatabases (sample_world (inr (CMongoClient mongo_client1)) (inl other_error))
    conn1 =
    ([EConnect "mongodb://localhost:27017"; EListDatabases 1;
      EConsoleError "Failed to connect for cleanup:" (Some "Database error");
      ECloseClient 1 None], Done tt).
Proof.
  split.
  - exact (proj1 (cleanupTestDatabases_failures (sample_world (inl other_error) (inr []))
                    conn1) other_error eq_refl).
  - exact (proj2 (cleanupTestDatabases_failures
                    (sample_world (inr (CMongoClient mongo_client1)) (inl other_error)) conn1)
             mongo_client1 other_error eq_refl eq_refl).
Defined.

Lemma error_handling_afterEach_cleanup_failure_witness :
  let st := mkStorageObj 3 (Some db2) None in
  let w := sample_world (inr (CMongoClient mongo_client1)) (inr []) in
  cleanStorage w (Some st) None None =
    ([ERemoveAllListeners 3; EDropDatabase db2], Throw other_error) /\
  error_handling_afterEach w (Some st) (Some "mongodb://localhost:27017") =
    ([ERestore; ERemoveAllListeners 3; EDropDatabase db2], Throw other_error).
Proof.
  intros st w.
  assert (H : cleanStorage w (Some st) None None =
                ([ERemoveAllListeners 3; EDropDatabase db2], Throw other_error))
    by reflexivity.
  split; [exact H|].
  exact (proj1 (error_handling_afterEach_cleanup_failure w (Some st)
                  (Some "mongodb://localhost:27017") _) other_error H).
Defined.

Lemma constructor_afterEach_cleanup_failure_witness :
  let st := mkStorageObj 3 (Some db2) None in
  let w := sample_world (inr (CMongoClient mongo_client1)) (inr []) in
  let u := Some "mongodb://localhost:27017" in
  (includes "create storage from url parameter" "connects to a mongoose instance" = false /\
   cleanStorage w (Some st) None None =
     ([ERemoveAllListeners 3; EDropDatabase db2], Throw other_error)) /\
  constructor_afterEach w "create storage from url parameter" (Some st) u 1%Z =
    ([ERemoveAllListeners 3; EDropDatabase db2] ++
       EConsoleWarn "Cleanup warning:" (Some "Database error") ::
       [EMongooseClose] ++ fst (dropDatabase w u),
     snd (dropDatabase w u)).
Proof.
  intros st w u.
  assert (H1 : includes "create storage from url parameter"
                 "connects to a mongoose instance" = false) by reflexivity.
  assert (H2 : cleanStorage w (Some st) None None =
                 ([ERemoveAllListeners 3; EDropDatabase db2], Throw other_error))
    by reflexivity.
  assert (H3 : 1%Z = 0%Z \/ w_mongoose_close w = None) by (right; reflexivity).
  split; [split; assumption|].
  exact (constructor_afterEach_cleanup_failure w _ (Some st) u 1%Z _ other_error H1 H2 H3).
Defined.
